(** * kellyseekv2: the live voice session of [App.tsx]

    A shallow embedding of the audio/session core of the React component
    [App]: the capture callback [onaudioprocess], the server-message handler
    [onmessage] (playback scheduling, transcript accumulation, turn
    completion, interruption), [startLiveSession] and [stopLiveSession].

    Conventions of the embedding.
    - A JavaScript [number] is idealised as a real number ([R]): rounding,
      infinities and NaN of IEEE doubles are outside the model.  Where the
      source would produce NaN (the level of an empty frame) the theorems
      carry the hypothesis that excludes it.
    - A JavaScript string is its sequence of UTF-16 code units ([list N]).
    - React state ([useState]) and refs ([useRef]) are fields of one record,
      [AppState]; a [setX] call is applied at once.
    - A handler is a computation in a state-and-exception monad [M] and runs
      as one step: the continuation of an [await] runs before another event
      is dispatched (for the decode of a chunk, a promise that settles in
      the same turn of the event loop), and a handler reads the state of the
      latest render.
    - What a handler reads from outside the component (the output clock, the
      wall clock, the outcome of a browser or SDK call, the value of a
      variable captured by the closure) comes in an environment record. *)

From Stdlib Require Import Reals Lra NArith String Ascii List DecimalString.
From Stdlib Require PrimFloat Uint63.
From stdpp Require Import gmap.

Local Open Scope R_scope.

(** ** JavaScript values *)

Module JS.

(** UTF-16 code units of an ASCII literal. *)
Definition str (s : string) : list N :=
  map N_of_ascii (list_ascii_of_string s).

(** [WhiteSpace] and [LineTerminator] of ECMAScript, the code points
    [String.prototype.trim] strips. *)
Definition is_white_space (c : N) : bool :=
  (  (c =? 0x0009) || (c =? 0x000A) || (c =? 0x000B) || (c =? 0x000C)
  || (c =? 0x000D) || (c =? 0x0020) || (c =? 0x00A0) || (c =? 0x1680)
  || ((0x2000 <=? c) && (c <=? 0x200A))
  || (c =? 0x2028) || (c =? 0x2029) || (c =? 0x202F) || (c =? 0x205F)
  || (c =? 0x3000) || (c =? 0xFEFF))%N.

Fixpoint trimStart (s : list N) : list N :=
  match s with
  | c :: s' => if is_white_space c then trimStart s' else s
  | [] => []
  end.

Definition trimEnd (s : list N) : list N := rev (trimStart (rev s)).

Definition trim (s : list N) : list N := trimEnd (trimStart s).

(** Truthiness of a string: every string but the empty one. *)
Definition truthy (s : list N) : bool :=
  match s with [] => false | _ :: _ => true end.

(** Truthiness of [string | null]. *)
Definition truthy_opt (o : option (list N)) : bool :=
  match o with Some s => truthy s | None => false end.

(** [n.toString()] and [`${n}`] for a non-negative integer. *)
Definition toString (n : N) : list N :=
  str (NilZero.string_of_uint (N.to_uint n)).

(** String conversion of [string | undefined], as [+=] applies it. *)
Definition toString_opt (o : option (list N)) : list N :=
  match o with Some s => s | None => str "undefined" end.

(** A thrown value, by the call that threw it. *)
Inductive error : Type :=
| GenAIError | AudioContextError | GetUserMediaError | ConnectError
| DecodeError | CloseError.

(** The completion of a call: a value, or a thrown error (for an awaited
    promise: fulfilled or rejected). *)
Inductive result (A : Type) : Type :=
| Ok (a : A)
| Raise (e : error).
Arguments Ok {A} a.
Arguments Raise {A} e.

End JS.
Import JS.

(** ** Types of [App.tsx] *)

Inductive Role : Type := user | assistant.

Module Message.
Record t : Type := mk {
  id : list N;
  role : Role;
  text : list N;
  timestamp : N;
  isTyping : option bool
}.
End Message.

Module ChatThread.
Record t : Type := mk {
  id : list N;
  title : list N;
  messages : list Message.t;
  updatedAt : N
}.
End ChatThread.

(** ** Web Audio and SDK objects *)

Inductive AudioContextState : Type := suspended | running | closed.

#[global] Instance AudioContextState_eq_dec : EqDecision AudioContextState.
Proof. solve_decision. Defined.

Record AudioContext : Type := {
  sampleRate : N;
  state : AudioContextState
}.

Record AudioBuffer : Type := { duration : R }.

(** An [AudioBufferSourceNode] on which [start(when)] has been called;
    [stopped] is the clock reading of the [stop()] call, if any. *)
Record AudioBufferSourceNode : Type := {
  buffer : AudioBuffer;
  when : R;
  stopped : option R
}.

(** [s.stop()] at clock reading [now]: playback ends now; on a node that an
    earlier call stops later than now the new call takes over, on a node
    that has already stopped it changes nothing. *)
Definition stop (now : R) (s : AudioBufferSourceNode) : AudioBufferSourceNode :=
  {| buffer := buffer s;
     when := when s;
     stopped := Some (match stopped s with None => now | Some ts => Rmin ts now end) |}.

(** The node renders its buffer at time [t]. *)
Definition audible (s : AudioBufferSourceNode) (t : R) : Prop :=
  when s <= t < when s + duration (buffer s) /\
  match stopped s with None => True | Some ts => t < ts end.

Inductive MediaStream : Type := media_stream.
Inductive Session : Type := live_session.

(** The fields of [LiveServerMessage] that [onmessage] reads. *)
Record Transcription : Type := { text : option (list N) }.

Record ServerContent : Type := {
  (** [modelTurn?.parts?.[0]?.inlineData?.data] *)
  inlineData : option (list N);
  inputTranscription : option Transcription;
  outputTranscription : option Transcription;
  turnComplete : bool;
  interrupted : bool
}.

Record LiveServerMessage : Type := { serverContent : option ServerContent }.

(** ** State of the component *)

Record AppState : Type := {
  (* useState *)
  threads : list ChatThread.t;
  activeThreadId : option (list N);
  isLive : bool;
  isSpeaking : bool;
  isInitializing : bool;
  audioLevel : R;
  (* useRef *)
  inputAudioContextRef : option AudioContext;
  outputAudioContextRef : option AudioContext;
  nextStartTimeRef : R;
  sourcesRef : gset nat;
  sessionRef : option Session;
  streamRef : option MediaStream;
  currentOutputTextRef : list N;
  currentInputTextRef : list N;
  (** The source nodes created on the output context, in creation order;
      a node is identified by its position here, and [sourcesRef] holds
      such positions. *)
  nodes : list AudioBufferSourceNode
}.

(** The state at mount; [saved] is what the initialiser of [threads] reads
    back from [localStorage]. *)
Definition initial_state (saved : list ChatThread.t) : AppState := {|
  threads := saved;
  activeThreadId := None;
  isLive := false;
  isSpeaking := false;
  isInitializing := false;
  audioLevel := 0;
  inputAudioContextRef := None;
  outputAudioContextRef := None;
  nextStartTimeRef := 0;
  sourcesRef := ∅;
  sessionRef := None;
  streamRef := None;
  currentOutputTextRef := [];
  currentInputTextRef := [];
  nodes := []
|}.

(** Field updates. *)
Definition with_threads (f : list ChatThread.t -> list ChatThread.t) (s : AppState) : AppState :=
  {| threads := f (threads s); activeThreadId := activeThreadId s; isLive := isLive s;
     isSpeaking := isSpeaking s; isInitializing := isInitializing s; audioLevel := audioLevel s;
     inputAudioContextRef := inputAudioContextRef s; outputAudioContextRef := outputAudioContextRef s;
     nextStartTimeRef := nextStartTimeRef s; sourcesRef := sourcesRef s; sessionRef := sessionRef s;
     streamRef := streamRef s; currentOutputTextRef := currentOutputTextRef s;
     currentInputTextRef := currentInputTextRef s; nodes := nodes s |}.

Definition with_activeThreadId (v : option (list N)) (s : AppState) : AppState :=
  {| threads := threads s; activeThreadId := v; isLive := isLive s;
     isSpeaking := isSpeaking s; isInitializing := isInitializing s; audioLevel := audioLevel s;
     inputAudioContextRef := inputAudioContextRef s; outputAudioContextRef := outputAudioContextRef s;
     nextStartTimeRef := nextStartTimeRef s; sourcesRef := sourcesRef s; sessionRef := sessionRef s;
     streamRef := streamRef s; currentOutputTextRef := currentOutputTextRef s;
     currentInputTextRef := currentInputTextRef s; nodes := nodes s |}.

Definition with_isLive (v : bool) (s : AppState) : AppState :=
  {| threads := threads s; activeThreadId := activeThreadId s; isLive := v;
     isSpeaking := isSpeaking s; isInitializing := isInitializing s; audioLevel := audioLevel s;
     inputAudioContextRef := inputAudioContextRef s; outputAudioContextRef := outputAudioContextRef s;
     nextStartTimeRef := nextStartTimeRef s; sourcesRef := sourcesRef s; sessionRef := sessionRef s;
     streamRef := streamRef s; currentOutputTextRef := currentOutputTextRef s;
     currentInputTextRef := currentInputTextRef s; nodes := nodes s |}.

Definition with_isSpeaking (v : bool) (s : AppState) : AppState :=
  {| threads := threads s; activeThreadId := activeThreadId s; isLive := isLive s;
     isSpeaking := v; isInitializing := isInitializing s; audioLevel := audioLevel s;
     inputAudioContextRef := inputAudioContextRef s; outputAudioContextRef := outputAudioContextRef s;
     nextStartTimeRef := nextStartTimeRef s; sourcesRef := sourcesRef s; sessionRef := sessionRef s;
     streamRef := streamRef s; currentOutputTextRef := currentOutputTextRef s;
     currentInputTextRef := currentInputTextRef s; nodes := nodes s |}.

Definition with_isInitializing (v : bool) (s : AppState) : AppState :=
  {| threads := threads s; activeThreadId := activeThreadId s; isLive := isLive s;
     isSpeaking := isSpeaking s; isInitializing := v; audioLevel := audioLevel s;
     inputAudioContextRef := inputAudioContextRef s; outputAudioContextRef := outputAudioContextRef s;
     nextStartTimeRef := nextStartTimeRef s; sourcesRef := sourcesRef s; sessionRef := sessionRef s;
     streamRef := streamRef s; currentOutputTextRef := currentOutputTextRef s;
     currentInputTextRef := currentInputTextRef s; nodes := nodes s |}.

Definition with_audioLevel (v : R) (s : AppState) : AppState :=
  {| threads := threads s; activeThreadId := activeThreadId s; isLive := isLive s;
     isSpeaking := isSpeaking s; isInitializing := isInitializing s; audioLevel := v;
     inputAudioContextRef := inputAudioContextRef s; outputAudioContextRef := outputAudioContextRef s;
     nextStartTimeRef := nextStartTimeRef s; sourcesRef := sourcesRef s; sessionRef := sessionRef s;
     streamRef := streamRef s; currentOutputTextRef := currentOutputTextRef s;
     currentInputTextRef := currentInputTextRef s; nodes := nodes s |}.

Definition with_inputAudioContextRef (v : option AudioContext) (s : AppState) : AppState :=
  {| threads := threads s; activeThreadId := activeThreadId s; isLive := isLive s;
     isSpeaking := isSpeaking s; isInitializing := isInitializing s; audioLevel := audioLevel s;
     inputAudioContextRef := v; outputAudioContextRef := outputAudioContextRef s;
     nextStartTimeRef := nextStartTimeRef s; sourcesRef := sourcesRef s; sessionRef := sessionRef s;
     streamRef := streamRef s; currentOutputTextRef := currentOutputTextRef s;
     currentInputTextRef := currentInputTextRef s; nodes := nodes s |}.

Definition with_outputAudioContextRef (v : option AudioContext) (s : AppState) : AppState :=
  {| threads := threads s; activeThreadId := activeThreadId s; isLive := isLive s;
     isSpeaking := isSpeaking s; isInitializing := isInitializing s; audioLevel := audioLevel s;
     inputAudioContextRef := inputAudioContextRef s; outputAudioContextRef := v;
     nextStartTimeRef := nextStartTimeRef s; sourcesRef := sourcesRef s; sessionRef := sessionRef s;
     streamRef := streamRef s; currentOutputTextRef := currentOutputTextRef s;
     currentInputTextRef := currentInputTextRef s; nodes := nodes s |}.

Definition with_nextStartTimeRef (v : R) (s : AppState) : AppState :=
  {| threads := threads s; activeThreadId := activeThreadId s; isLive := isLive s;
     isSpeaking := isSpeaking s; isInitializing := isInitializing s; audioLevel := audioLevel s;
     inputAudioContextRef := inputAudioContextRef s; outputAudioContextRef := outputAudioContextRef s;
     nextStartTimeRef := v; sourcesRef := sourcesRef s; sessionRef := sessionRef s;
     streamRef := streamRef s; currentOutputTextRef := currentOutputTextRef s;
     currentInputTextRef := currentInputTextRef s; nodes := nodes s |}.

Definition with_sourcesRef (v : gset nat) (s : AppState) : AppState :=
  {| threads := threads s; activeThreadId := activeThreadId s; isLive := isLive s;
     isSpeaking := isSpeaking s; isInitializing := isInitializing s; audioLevel := audioLevel s;
     inputAudioContextRef := inputAudioContextRef s; outputAudioContextRef := outputAudioContextRef s;
     nextStartTimeRef := nextStartTimeRef s; sourcesRef := v; sessionRef := sessionRef s;
     streamRef := streamRef s; currentOutputTextRef := currentOutputTextRef s;
     currentInputTextRef := currentInputTextRef s; nodes := nodes s |}.

Definition with_sessionRef (v : option Session) (s : AppState) : AppState :=
  {| threads := threads s; activeThreadId := activeThreadId s; isLive := isLive s;
     isSpeaking := isSpeaking s; isInitializing := isInitializing s; audioLevel := audioLevel s;
     inputAudioContextRef := inputAudioContextRef s; outputAudioContextRef := outputAudioContextRef s;
     nextStartTimeRef := nextStartTimeRef s; sourcesRef := sourcesRef s; sessionRef := v;
     streamRef := streamRef s; currentOutputTextRef := currentOutputTextRef s;
     currentInputTextRef := currentInputTextRef s; nodes := nodes s |}.

Definition with_streamRef (v : option MediaStream) (s : AppState) : AppState :=
  {| threads := threads s; activeThreadId := activeThreadId s; isLive := isLive s;
     isSpeaking := isSpeaking s; isInitializing := isInitializing s; audioLevel := audioLevel s;
     inputAudioContextRef := inputAudioContextRef s; outputAudioContextRef := outputAudioContextRef s;
     nextStartTimeRef := nextStartTimeRef s; sourcesRef := sourcesRef s; sessionRef := sessionRef s;
     streamRef := v; currentOutputTextRef := currentOutputTextRef s;
     currentInputTextRef := currentInputTextRef s; nodes := nodes s |}.

Definition with_currentOutputTextRef (v : list N) (s : AppState) : AppState :=
  {| threads := threads s; activeThreadId := activeThreadId s; isLive := isLive s;
     isSpeaking := isSpeaking s; isInitializing := isInitializing s; audioLevel := audioLevel s;
     inputAudioContextRef := inputAudioContextRef s; outputAudioContextRef := outputAudioContextRef s;
     nextStartTimeRef := nextStartTimeRef s; sourcesRef := sourcesRef s; sessionRef := sessionRef s;
     streamRef := streamRef s; currentOutputTextRef := v;
     currentInputTextRef := currentInputTextRef s; nodes := nodes s |}.

Definition with_currentInputTextRef (v : list N) (s : AppState) : AppState :=
  {| threads := threads s; activeThreadId := activeThreadId s; isLive := isLive s;
     isSpeaking := isSpeaking s; isInitializing := isInitializing s; audioLevel := audioLevel s;
     inputAudioContextRef := inputAudioContextRef s; outputAudioContextRef := outputAudioContextRef s;
     nextStartTimeRef := nextStartTimeRef s; sourcesRef := sourcesRef s; sessionRef := sessionRef s;
     streamRef := streamRef s; currentOutputTextRef := currentOutputTextRef s;
     currentInputTextRef := v; nodes := nodes s |}.

Definition with_nodes (v : list AudioBufferSourceNode) (s : AppState) : AppState :=
  {| threads := threads s; activeThreadId := activeThreadId s; isLive := isLive s;
     isSpeaking := isSpeaking s; isInitializing := isInitializing s; audioLevel := audioLevel s;
     inputAudioContextRef := inputAudioContextRef s; outputAudioContextRef := outputAudioContextRef s;
     nextStartTimeRef := nextStartTimeRef s; sourcesRef := sourcesRef s; sessionRef := sessionRef s;
     streamRef := streamRef s; currentOutputTextRef := currentOutputTextRef s;
     currentInputTextRef := currentInputTextRef s; nodes := v |}.

(** ** The handler monad: state, and exceptions that keep the state *)

Definition M (A : Type) : Type := AppState -> result A * AppState.

#[global] Instance M_ret : MRet M := fun A a s => (Ok a, s).

#[global] Instance M_bind : MBind M := fun A B k m s =>
  match m s with
  | (Ok a, s') => k a s'
  | (Raise e, s') => (Raise e, s')
  end.

(** The current state, for reading a ref or a state variable. *)
Definition get : M AppState := fun s => (Ok s, s).

(** An assignment to a ref, or a [setX] call. *)
Definition update (f : AppState -> AppState) : M unit := fun s => (Ok tt, f s).

(** A call out of the component, with the completion the environment gives. *)
Definition call {A : Type} (r : result A) : M A := fun s => (r, s).

(** [try { body } catch (err) { handler }] *)
Definition try_catch {A : Type} (body : M A) (handler : error -> M A) : M A := fun s =>
  match body s with
  | (Ok a, s') => (Ok a, s')
  | (Raise e, s') => handler e s'
  end.

(** [if (c) { body }] *)
Definition when_ (c : bool) (body : M unit) : M unit :=
  if c then body else mret tt.

(** ** Audio capture: [scriptProcessor.onaudioprocess] *)

(** The loudness level the callback computes from the frame's samples:
    the loop accumulates [sum += inputData[i] * inputData[i]] from index 0,
    then [Math.sqrt(sum / inputData.length)]. *)
Definition level (inputData : list R) : R :=
  let sum := fold_left (fun sum x => sum + x * x) inputData 0 in
  sqrt (sum / INR (length inputData)).

(** The same computation on IEEE doubles, the numbers the callback really
    computes with; it serves to check the idealisation on concrete frames. *)
Definition level_double (inputData : list PrimFloat.float) : PrimFloat.float :=
  let sum :=
    fold_left (fun sum x => PrimFloat.add sum (PrimFloat.mul x x)) inputData PrimFloat.zero in
  PrimFloat.sqrt
    (PrimFloat.div sum (PrimFloat.of_uint63 (Uint63.of_Z (Z.of_nat (length inputData))))).

(** The callback reports the level; forwarding the encoded frame to the
    session goes through the codec utilities and the SDK and changes no
    field of [AppState]. *)
Definition onaudioprocess (inputData : list R) : M unit :=
  update (with_audioLevel (level inputData)).

(** ** The server-message handler: [onmessage] *)

(** The places where the handler reads the wall clock ([Date.now()] or
    [new Date()]), in source order. *)
Inductive DateSite : Type :=
| ThreadId | ThreadUpdatedAt | UserId | UserTimestamp
| AssistantId | AssistantTimestamp | AppendUpdatedAt.

Record MessageEnv : Type := {
  (** [activeThreadId] as the closure of [startLiveSession] captured it. *)
  closure_activeThreadId : option (list N);
  (** [ctx.currentTime], the output clock. *)
  currentTime : R;
  (** The completion of [await decodeAudioData(decode(audioData), ctx, 24000, 1)];
      the helper is defined in [utils/audio]. *)
  decodeAudioData : result AudioBuffer;
  (** The wall clock, in milliseconds, at each place that reads it. *)
  Date_now : DateSite -> N
}.

(** Lines 138-153: schedule the chunk of the message on the output context. *)
Definition schedule_chunk (env : MessageEnv) (audioData : option (list N)) : M unit :=
  s ← get;
  match outputAudioContextRef s with
  | Some ctx =>
    when_ (truthy_opt audioData) (
      update (with_isSpeaking true);;
      update (fun s => with_nextStartTimeRef (Rmax (nextStartTimeRef s) (currentTime env)) s);;
      buffer ← call (decodeAudioData env);
      s ← get;
      let source := length (nodes s) in
      (* source.start(nextStartTimeRef.current) *)
      update (with_nodes (nodes s ++
        [{| buffer := buffer; when := nextStartTimeRef s; stopped := None |}]));;
      update (fun s => with_nextStartTimeRef (nextStartTimeRef s + duration buffer) s);;
      update (fun s => with_sourcesRef ({[source]} ∪ sourcesRef s) s))
  | None => mret tt
  end.

(** Lines 154-155: append the transcript fragments. *)
Definition append_transcripts (sc : option ServerContent) : M unit :=
  match sc ≫= inputTranscription with
  | Some tr => update (fun s =>
      with_currentInputTextRef (currentInputTextRef s ++ toString_opt (text tr)) s)
  | None => mret tt
  end;;
  match sc ≫= outputTranscription with
  | Some tr => update (fun s =>
      with_currentOutputTextRef (currentOutputTextRef s ++ toString_opt (text tr)) s)
  | None => mret tt
  end.

(** Lines 168-171: the messages of a completed turn. *)
Definition newMsgs (env : MessageEnv) (userTxt assistantTxt : list N) : list Message.t :=
  (if truthy userTxt
   then [Message.mk (str "u-" ++ toString (Date_now env UserId)) user userTxt
                    (Date_now env UserTimestamp) None]
   else [])
  ++
  (if truthy assistantTxt
   then [Message.mk (str "a-" ++ toString (Date_now env AssistantId)) assistant assistantTxt
                    (Date_now env AssistantTimestamp) None]
   else []).

(** Line 172: the updater given to [setThreads]. *)
Definition append_to_thread (env : MessageEnv) (currentId : list N) (msgs : list Message.t)
    (prev : list ChatThread.t) : list ChatThread.t :=
  map (fun t =>
         if decide (ChatThread.id t = currentId)
         then ChatThread.mk (ChatThread.id t) (ChatThread.title t)
                (ChatThread.messages t ++ msgs) (Date_now env AppendUpdatedAt)
         else t) prev.

(** Lines 157-176: a completed turn. *)
Definition complete_turn (env : MessageEnv) : M unit :=
  s ← get;
  let userTxt := trim (currentInputTextRef s) in
  let assistantTxt := trim (currentOutputTextRef s) in
  when_ (truthy userTxt || truthy assistantTxt) (
    let currentId :=
      if truthy_opt (closure_activeThreadId env)
      then default [] (closure_activeThreadId env)
      else toString (Date_now env ThreadId) in
    when_ (negb (truthy_opt (closure_activeThreadId env))) (
      let newT := ChatThread.mk currentId (str "Voice Interaction") []
                    (Date_now env ThreadUpdatedAt) in
      update (with_threads (cons newT));;
      update (with_activeThreadId (Some currentId)));;
    update (with_threads (append_to_thread env currentId (newMsgs env userTxt assistantTxt))));;
  update (with_currentInputTextRef []);;
  update (with_currentOutputTextRef []).

(** Line 178: [sourcesRef.current.forEach(s => s.stop())]. *)
Definition stop_all (now : R) (registry : gset nat)
    (ns : list AudioBufferSourceNode) : list AudioBufferSourceNode :=
  set_fold (fun source acc => alter (stop now) source acc) ns registry.

(** Lines 177-182: the model was interrupted. *)
Definition handle_interrupted (env : MessageEnv) : M unit :=
  update (fun s => with_nodes (stop_all (currentTime env) (sourcesRef s) (nodes s)) s);;
  update (with_sourcesRef ∅);;
  update (with_nextStartTimeRef 0);;
  update (with_isSpeaking false).

Definition onmessage (env : MessageEnv) (message : LiveServerMessage) : M unit :=
  let sc := serverContent message in
  schedule_chunk env (sc ≫= inlineData);;
  append_transcripts sc;;
  when_ (default false (turnComplete <$> sc)) (complete_turn env);;
  when_ (default false (interrupted <$> sc)) (handle_interrupted env).

(** [source.onended], for the node [source]. *)
Definition onended (source : nat) : M unit :=
  update (fun s => with_sourcesRef (sourcesRef s ∖ {[source]}) s);;
  s ← get;
  when_ (bool_decide (size (sourcesRef s) = 0%nat)) (update (with_isSpeaking false)).

(** [onopen]: the flags; the capture graph it wires calls [onaudioprocess].
    The callback is handed to [ai.live.connect]; an execution has it as the
    event [Opened], after the [Start] that made the connection.  It writes
    the two flags and the continuation of [connect] writes [sessionRef] only,
    so the state once both have run is the same in either order. *)
Definition onopen : M unit :=
  update (with_isLive true);;
  update (with_isInitializing false).

(** ** [startLiveSession] and [stopLiveSession] *)

Record StartEnv : Type := {
  (** [new GoogleGenAI({ apiKey })] *)
  new_GoogleGenAI : result unit;
  (** [new AudioContext({ sampleRate: 16000 })] *)
  new_AudioContext_input : result AudioContextState;
  (** [new AudioContext({ sampleRate: 24000 })] *)
  new_AudioContext_output : result AudioContextState;
  (** [await navigator.mediaDevices.getUserMedia({ audio: true })] *)
  getUserMedia : result MediaStream;
  (** [await ai.live.connect({ ... })] *)
  connect : result Session
}.

Definition startLiveSession (env : StartEnv) : M unit :=
  s ← get;
  if isInitializing s || isLive s then mret tt else
  update (with_isInitializing true);;
  try_catch (
    _ ← call (new_GoogleGenAI env);
    st ← call (new_AudioContext_input env);
    update (with_inputAudioContextRef (Some {| sampleRate := 16000; state := st |}));;
    st ← call (new_AudioContext_output env);
    update (with_outputAudioContextRef (Some {| sampleRate := 24000; state := st |}));;
    stream ← call (getUserMedia env);
    update (with_streamRef (Some stream));;
    session ← call (connect env);
    update (with_sessionRef (Some session)))
  (fun err => update (with_isInitializing false)).

Record StopEnv : Type := {
  (** [sessionRef.current.close()] *)
  session_close : result unit
}.

(** The guard [ref.current && ref.current.state !== 'closed']. *)
Definition open_context (ref : option AudioContext) : bool :=
  match ref with
  | Some ctx => bool_decide (state ctx ≠ closed)
  | None => false
  end.

Definition stopLiveSession (env : StopEnv) : M unit :=
  s ← get;
  when_ (bool_decide (is_Some (sessionRef s))) (
    try_catch (call (session_close env)) (fun e => mret tt);;
    update (with_sessionRef None));;
  s ← get;
  when_ (bool_decide (is_Some (streamRef s))) (
    (* every track of the stream is stopped *)
    update (with_streamRef None));;
  s ← get;
  when_ (open_context (inputAudioContextRef s)) (
    (* close() is called and its rejection swallowed *)
    update (with_inputAudioContextRef None));;
  s ← get;
  when_ (open_context (outputAudioContextRef s)) (
    update (with_outputAudioContextRef None));;
  update (with_isLive false);;
  update (with_isSpeaking false);;
  update (with_isInitializing false);;
  update (with_audioLevel 0).

(** [onerror] and [onclose] of the session both call [stopLiveSession]. *)
Definition onerror (env : StopEnv) : M unit := stopLiveSession env.
Definition onclose (env : StopEnv) : M unit := stopLiveSession env.

(** ** Executions *)

Inductive event : Type :=
| Start (env : StartEnv)
| Opened
| Frame (inputData : list R)
| Msg (env : MessageEnv) (message : LiveServerMessage)
| Ended (source : nat)
| SessionError (env : StopEnv)
| SessionClose (env : StopEnv)
| Stop (env : StopEnv).

Definition handler (e : event) : M unit :=
  match e with
  | Start env => startLiveSession env
  | Opened => onopen
  | Frame inputData => onaudioprocess inputData
  | Msg env message => onmessage env message
  | Ended source => onended source
  | SessionError env => onerror env
  | SessionClose env => onclose env
  | Stop env => stopLiveSession env
  end.

(** The state a handler leaves, whether it returned or threw. *)
Definition after (e : event) (s : AppState) : AppState := (handler e s).2.

Definition run (es : list event) (s : AppState) : AppState :=
  fold_left (fun s e => after e s) es s.

(** A constructor never hands out a closed context. *)
Definition well_formed (e : event) : Prop :=
  match e with
  | Start env =>
      new_AudioContext_input env ≠ Ok closed /\ new_AudioContext_output env ≠ Ok closed
  | _ => True
  end.

Inductive reachable : AppState -> Prop :=
| reachable_initial saved : reachable (initial_state saved)
| reachable_after e s : reachable s -> well_formed e -> reachable (after e s).

(** ** Vocabulary of the properties *)

Arguments str : simpl never.
Arguments toString : simpl never.
Arguments trim : simpl never.

(** *** Level metering *)

Definition sum (l : list R) : R := foldr Rplus 0 l.

Definition mean (l : list R) : R := sum l / INR (length l).

(** The root mean square of a frame, in the specification's words:
    [sqrt(mean(sample_i^2))]. *)
Definition root_mean_square (frame : list R) : R :=
  sqrt (mean (map (fun x => x ^ 2) frame)).

(** *** The message handler, step by step *)

(** The text a transcription field of the message appends. *)
Definition fragment (tr : option Transcription) : list N :=
  match tr with Some tr => toString_opt (text tr) | None => [] end.

(** The chunk of the message, if it is scheduled, decodes. *)
Definition decoded (env : MessageEnv) : Prop :=
  exists buffer, decodeAudioData env = Ok buffer.

(** The state [schedule_chunk] leaves when it schedules [buffer]. *)
Definition scheduled (now : R) (buffer : AudioBuffer) (s : AppState) : AppState :=
  let start := Rmax (nextStartTimeRef s) now in
  with_sourcesRef ({[length (nodes s)]} ∪ sourcesRef s)
    (with_nextStartTimeRef (start + duration buffer)
       (with_nodes (nodes s ++ [{| buffer := buffer; when := start; stopped := None |}])
          (with_isSpeaking true s))).

(** The state [schedule_chunk] leaves when the decode throws. *)
Definition undecoded (now : R) (s : AppState) : AppState :=
  with_nextStartTimeRef (Rmax (nextStartTimeRef s) now) (with_isSpeaking true s).

Definition cleared (s : AppState) : AppState :=
  with_currentOutputTextRef [] (with_currentInputTextRef [] s).

(** [currentId] of the turn block, and the thread the block creates when the
    closure holds no thread id. *)
Definition currentId (env : MessageEnv) : list N :=
  if truthy_opt (closure_activeThreadId env)
  then default [] (closure_activeThreadId env)
  else toString (Date_now env ThreadId).

Definition newT (env : MessageEnv) : ChatThread.t :=
  ChatThread.mk (currentId env) (str "Voice Interaction") [] (Date_now env ThreadUpdatedAt).

(** The state the turn block leaves. *)
Definition completed (env : MessageEnv) (s : AppState) : AppState :=
  let userTxt := trim (currentInputTextRef s) in
  let assistantTxt := trim (currentOutputTextRef s) in
  cleared
    (if truthy userTxt || truthy assistantTxt
     then with_threads (append_to_thread env (currentId env) (newMsgs env userTxt assistantTxt))
            (if truthy_opt (closure_activeThreadId env) then s
             else with_activeThreadId (Some (currentId env)) (with_threads (cons (newT env)) s))
     else s).

(** The state [handle_interrupted] leaves. *)
Definition silenced (now : R) (s : AppState) : AppState :=
  with_isSpeaking false (with_nextStartTimeRef 0 (with_sourcesRef ∅
    (with_nodes (stop_all now (sourcesRef s) (nodes s)) s))).

(** The handler from line 154 on, once the chunk step has returned. *)
Definition finish (env : MessageEnv) (sc : option ServerContent) (s1 : AppState) : AppState :=
  let s2 :=
    with_currentOutputTextRef
      (currentOutputTextRef s1 ++ fragment (sc ≫= outputTranscription))
      (with_currentInputTextRef
         (currentInputTextRef s1 ++ fragment (sc ≫= inputTranscription)) s1) in
  let s3 := if default false (turnComplete <$> sc) then completed env s2 else s2 in
  if default false (interrupted <$> sc) then silenced (currentTime env) s3 else s3.

(** *** Playback *)

(** The event delivers an audio chunk of duration [cd.2] while the output
    clock reads [cd.1], and does not interrupt. *)
Definition delivers (e : event) (cd : R * R) : Prop :=
  exists env sc data,
    e = Msg env {| serverContent := Some sc |} /\
    inlineData sc = Some data /\ truthy data = true /\ interrupted sc = false /\
    currentTime env = cd.1 /\ decodeAudioData env = Ok {| duration := cd.2 |}.





(** The node [source] renders audio at time [t]. *)
Definition fires (s : AppState) (source : nat) (t : R) : Prop :=
  exists n, nodes s !! source = Some n /\ audible n t.

(** *** Turns *)

Definition whitespace_only (s : list N) : Prop := forallb is_white_space s = true.

(** *** Resources *)

(** A context held by a ref has not been closed. *)
Definition contexts_open (s : AppState) : Prop :=
  (forall ctx, inputAudioContextRef s = Some ctx -> state ctx <> closed) /\
  (forall ctx, outputAudioContextRef s = Some ctx -> state ctx <> closed).

(** No resource is held. *)
Definition released (s : AppState) : Prop :=
  sessionRef s = None /\ streamRef s = None /\
  inputAudioContextRef s = None /\ outputAudioContextRef s = None.

(** The flags of the Idle/Closed state. *)
Definition idle (s : AppState) : Prop :=
  isLive s = false /\ isInitializing s = false /\ isSpeaking s = false.

(** The state [stopLiveSession] leaves. *)
Definition torn_down (s : AppState) : AppState :=
  let s1 := if bool_decide (is_Some (sessionRef s)) then with_sessionRef None s else s in
  let s2 := if bool_decide (is_Some (streamRef s1)) then with_streamRef None s1 else s1 in
  let s3 := if open_context (inputAudioContextRef s2)
            then with_inputAudioContextRef None s2 else s2 in
  let s4 := if open_context (outputAudioContextRef s3)
            then with_outputAudioContextRef None s3 else s3 in
  with_audioLevel 0 (with_isInitializing false (with_isSpeaking false (with_isLive false s4))).

(** *** Concrete inputs *)

Definition input_fragment (t : list N) : LiveServerMessage :=
  {| serverContent := Some {|
       inlineData := None;
       inputTranscription := Some {| text := Some t |};
       outputTranscription := None;
       turnComplete := false; interrupted := false |} |}.

Definition output_fragment (t : list N) : LiveServerMessage :=
  {| serverContent := Some {|
       inlineData := None;
       inputTranscription := None;
       outputTranscription := Some {| text := Some t |};
       turnComplete := false; interrupted := false |} |}.

Definition turn_complete : LiveServerMessage :=
  {| serverContent := Some {|
       inlineData := None; inputTranscription := None; outputTranscription := None;
       turnComplete := true; interrupted := false |} |}.

Definition interruption : LiveServerMessage :=
  {| serverContent := Some {|
       inlineData := None; inputTranscription := None; outputTranscription := None;
       turnComplete := false; interrupted := true |} |}.

Definition audio_chunk : LiveServerMessage :=
  {| serverContent := Some {|
       inlineData := Some (str "AAAA");
       inputTranscription := None; outputTranscription := None;
       turnComplete := false; interrupted := false |} |}.

(** The handler's environment when the output clock reads [now] and the chunk
    decodes to a buffer of [d] seconds; the wall clock stands at a fixed
    millisecond and the closure holds no thread id. *)
Definition at_clock (now d : R) : MessageEnv :=
  {| closure_activeThreadId := None;
     currentTime := now;
     decodeAudioData := Ok {| duration := d |};
     Date_now := fun _ => 1700000000000%N |}.

(** Every acquisition of [startLiveSession] succeeds. *)
Definition granted : StartEnv :=
  {| new_GoogleGenAI := Ok tt;
     new_AudioContext_input := Ok running;
     new_AudioContext_output := Ok running;
     getUserMedia := Ok media_stream;
     connect := Ok live_session |}.

(** The user denies the microphone. *)
Definition microphone_denied : StartEnv :=
  {| new_GoogleGenAI := Ok tt;
     new_AudioContext_input := Ok running;
     new_AudioContext_output := Ok running;
     getUserMedia := Raise GetUserMediaError;
     connect := Ok live_session |}.

(** The connection cannot be opened. *)
Definition connection_refused : StartEnv :=
  {| new_GoogleGenAI := Ok tt;
     new_AudioContext_input := Ok running;
     new_AudioContext_output := Ok running;
     getUserMedia := Ok media_stream;
     connect := Raise ConnectError |}.

Definition closes : StopEnv := {| session_close := Ok tt |}.
Definition close_throws : StopEnv := {| session_close := Raise CloseError |}.

(** A session that is open: started with every acquisition granted, then
    [onopen]. *)
Definition open_session : AppState :=
  run [Start granted; Opened] (initial_state []).

(** * The rest of the component *)

(** ** Conversation threads *)

(** [threads.find(t => t.id === activeThreadId)], and the messages on
    display, [activeThread?.messages || []]. *)
Definition activeThread (s : AppState) : option ChatThread.t :=
  match activeThreadId s with
  | Some i => find (fun t => bool_decide (ChatThread.id t = i)) (threads s)
  | None => None
  end.

Definition activeMessages (s : AppState) : list Message.t :=
  default [] (ChatThread.messages <$> activeThread s).

Definition createNewChat (now : DateSite -> N) : M unit :=
  let newThread :=
    ChatThread.mk (toString (now ThreadId)) (str "New Conversation") []
      (now ThreadUpdatedAt) in
  update (with_threads (cons newThread));;
  update (with_activeThreadId (Some (ChatThread.id newThread))).

Definition deleteThread (id : list N) : M unit :=
  s ← get;
  update (with_threads (filter (fun t => ChatThread.id t <> id)));;
  when_ (bool_decide (activeThreadId s = Some id)) (update (with_activeThreadId None)).

(** The click on the thread [t] of the side bar. *)
Definition selectThread (t : ChatThread.t) : M unit :=
  update (with_activeThreadId (Some (ChatThread.id t))).

(** ** The text chat: [handleSendText] *)

(** The component state together with the text box. *)
Record TextBox : Type := {
  component : AppState;
  inputText : list N
}.

(** What the continuation of [handleSendText] keeps from the call. *)
Record Pending : Type := {
  currentThreadId : list N;
  textToSend : list N;
  initialAssistantMessage_id : list N
}.

(** Line 235: the updater that appends the two messages. *)
Definition append_exchange (currentThreadId : list N) (userMessage initialAssistantMessage : Message.t)
    (prev : list ChatThread.t) : list ChatThread.t :=
  map (fun t =>
         if decide (ChatThread.id t = currentThreadId)
         then ChatThread.mk (ChatThread.id t) (ChatThread.title t)
                (ChatThread.messages t ++ [userMessage; initialAssistantMessage])
                (ChatThread.updatedAt t)
         else t) prev.

(** Lines 221-236: [handleSendText] up to the request; [None] when it
    returns at line 222. *)
Definition handleSendText_begin (now : DateSite -> N) (b : TextBox) : TextBox * option Pending :=
  let textToSend := trim (inputText b) in
  if negb (truthy textToSend) then (b, None) else
  let s := component b in
  let newT := ChatThread.mk (toString (now ThreadId)) (str "New Conversation") []
                (now ThreadUpdatedAt) in
  let currentThreadId :=
    if truthy_opt (activeThreadId s) then default [] (activeThreadId s)
    else ChatThread.id newT in
  let s1 :=
    if truthy_opt (activeThreadId s) then s
    else with_activeThreadId (Some (ChatThread.id newT)) (with_threads (cons newT) s) in
  let userMessage :=
    Message.mk (str "ut-" ++ toString (now UserId)) user textToSend
      (now UserTimestamp) None in
  let initialAssistantMessage :=
    Message.mk (str "at-" ++ toString (now AssistantId)) assistant []
      (now AssistantTimestamp) (Some true) in
  ({| component :=
        with_threads (append_exchange currentThreadId userMessage initialAssistantMessage) s1;
      inputText := [] |},
   Some {| currentThreadId := currentThreadId;
           textToSend := textToSend;
           initialAssistantMessage_id := Message.id initialAssistantMessage |}).

(** Line 252: the title of a thread after its first exchange. *)
Definition title_of (textToSend : list N) : list N :=
  take 30 textToSend ++ (if (30 <? length textToSend)%nat then str "..." else []).

(** Lines 253 and 260: the placeholder is given its text. *)
Definition fill_placeholder (p : Pending) (responseText : list N) (ms : list Message.t) :
    list Message.t :=
  map (fun m =>
         if decide (Message.id m = initialAssistantMessage_id p)
         then Message.mk (Message.id m) (Message.role m) responseText
                (Message.timestamp m) (Some false)
         else m) ms.

Record SendEnv : Type := {
  (** [new GoogleGenAI({ apiKey })] *)
  send_GoogleGenAI : result unit;
  (** [response.text] of [await ai.models.generateContent({ ... })] *)
  generateContent : result (option (list N));
  (** [new Date()] in the updater of line 254 *)
  send_Date : N
}.

(** Lines 238-262: the request and what follows it. *)
Definition handleSendText_settle (env : SendEnv) (p : Pending) : M unit :=
  try_catch (
    _ ← call (send_GoogleGenAI env);
    response_text ← call (generateContent env);
    let responseText :=
      if truthy_opt response_text then default [] response_text
      else str "I'm sorry, I couldn't process that." in
    update (with_threads (map (fun t =>
      if decide (ChatThread.id t = currentThreadId p)
      then ChatThread.mk (ChatThread.id t)
             (if (length (ChatThread.messages t) <=? 2)%nat
              then title_of (textToSend p) else ChatThread.title t)
             (fill_placeholder p responseText (ChatThread.messages t))
             (send_Date env)
      else t))))
  (fun err =>
    update (with_threads (map (fun t =>
      if decide (ChatThread.id t = currentThreadId p)
      then ChatThread.mk (ChatThread.id t) (ChatThread.title t)
             (fill_placeholder p (str "Error connecting to service.") (ChatThread.messages t))
             (ChatThread.updatedAt t)
      else t)))).

(** The text the placeholder ends with. *)
Definition reply_text (env : SendEnv) : list N :=
  match send_GoogleGenAI env, generateContent env with
  | Ok _, Ok response_text =>
      if truthy_opt response_text then default [] response_text
      else str "I'm sorry, I couldn't process that."
  | _, _ => str "Error connecting to service."
  end.

(** ** Everything that happens to the component *)

Inductive ui_event : Type :=
| Voice (e : event)
| NewChat (now : DateSite -> N)
| Delete (id : list N)
| Select (t : ChatThread.t)
| Send (now : DateSite -> N) (inputText : list N)
| Settle (env : SendEnv) (p : Pending).

Definition ui_after (e : ui_event) (s : AppState) : AppState :=
  match e with
  | Voice e => after e s
  | NewChat now => (createNewChat now s).2
  | Delete id => (deleteThread id s).2
  | Select t => (selectThread t s).2
  | Send now inputText =>
      component (handleSendText_begin now {| component := s; inputText := inputText |}).1
  | Settle env p => (handleSendText_settle env p s).2
  end.

(** Only a thread of the list can be clicked. *)
Definition ui_well_formed (e : ui_event) (s : AppState) : Prop :=
  match e with
  | Voice e => well_formed e
  | Select t => t ∈ threads s
  | _ => True
  end.

Inductive ui_reachable : AppState -> Prop :=
| ui_reachable_initial saved : ui_reachable (initial_state saved)
| ui_reachable_after e s :
    ui_reachable s -> ui_well_formed e s -> ui_reachable (ui_after e s).

(** ** The visualizer: [render] of [Visualizer.tsx] *)

Module Visualizer.

Record blobConfig : Type := { r : R; speed : R; phase : R; drift : R }.

Definition blobConfigs : list blobConfig :=
  [ {| r := 120; speed := 0.015; phase := 0; drift := 30 |};
    {| r := 140; speed := 0.01; phase := 2.1; drift := 40 |};
    {| r := 110; speed := 0.02; phase := 4.5; drift := 25 |};
    {| r := 130; speed := 0.012; phase := 1.2; drift := 35 |};
    {| r := 100; speed := 0.008; phase := 3.3; drift := 20 |};
    {| r := 90; speed := 0.025; phase := 5.7; drift := 25 |} ].

Definition stateIntensity (isSpeaking isListening : bool) : R :=
  if isSpeaking then 2.5 else if isListening then 1.8 else 1.0.

Definition audioPulse (audioLevel : R) : R := audioLevel * 500.

Definition breathe (time : R) : R := sin (time * 2) * 10.

Definition colors (isSpeaking isListening : bool) : list string :=
  if isSpeaking then
    ["rgba(255, 180, 0, 0.95)"; "rgba(255, 80, 0, 0.9)";
     "rgba(255, 20, 100, 0.85)"; "rgba(255, 240, 50, 0.8)"]%string
  else if isListening then
    ["rgba(0, 255, 220, 0.95)"; "rgba(0, 240, 255, 0.9)";
     "rgba(80, 180, 255, 0.85)"; "rgba(0, 130, 255, 0.8)"]%string
  else
    ["rgba(130, 0, 255, 0.8)"; "rgba(0, 100, 255, 0.7)"; "rgba(255, 0, 200, 0.6)"]%string.

(** [colors[i % colors.length]] *)
Definition blobColor (isSpeaking isListening : bool) (i : nat) : option string :=
  colors isSpeaking isListening !! (i mod length (colors isSpeaking isListening))%nat.

Definition auraRadius (isSpeaking isListening : bool) (audioLevel time : R) : R :=
  (260 + breathe time + audioPulse audioLevel) * stateIntensity isSpeaking isListening.

Definition currentRadius (isSpeaking isListening : bool) (audioLevel time : R)
    (config : blobConfig) (i : nat) : R :=
  (r config + sin (time * 5 + INR i) * 12 + audioPulse audioLevel * 1.5)
  * (if isListening || isSpeaking then 1.1 else 0.85).

Definition ringRadius (isSpeaking isListening : bool) (audioLevel : R) : R :=
  (180 + audioPulse audioLevel * 0.6) * stateIntensity isSpeaking isListening.

Definition coreSize (isSpeaking isListening : bool) (audioLevel : R) : R :=
  (30 + audioPulse audioLevel * 0.4) * stateIntensity isSpeaking isListening.

End Visualizer.

(** ** Vocabulary of the further properties *)

(** The nodes of chunks scheduled one after the other from [t], each at the
    later of the schedule and its clock reading. *)
Fixpoint laid_out (t : R) (chunks : list (R * R)) : list AudioBufferSourceNode :=
  match chunks with
  | [] => []
  | (c, d) :: chunks' =>
      {| buffer := {| duration := d |}; when := Rmax t c; stopped := None |}
        :: laid_out (Rmax t c + d) chunks'
  end.

(** Every registered source is a node that has been started and not stopped. *)
Definition registry_live (s : AppState) : Prop :=
  forall source, source ∈ sourcesRef s ->
    exists n, nodes s !! source = Some n /\ stopped n = None.

(** Every acquisition of [startLiveSession] succeeds. *)
Definition all_granted (env : StartEnv) : bool :=
  match new_GoogleGenAI env, new_AudioContext_input env, new_AudioContext_output env,
        getUserMedia env, connect env with
  | Ok _, Ok _, Ok _, Ok _, Ok _ => true
  | _, _, _, _, _ => false
  end.

(** Every acquisition that comes before [ai.live.connect] succeeds, so the
    call is made. *)
Definition reaches_connect (env : StartEnv) : bool :=
  match new_GoogleGenAI env, new_AudioContext_input env, new_AudioContext_output env,
        getUserMedia env with
  | Ok _, Ok _, Ok _, Ok _ => true
  | _, _, _, _ => false
  end.

(** The first thread of the list with the id [i]. *)
Definition by_id (i : list N) (l : list ChatThread.t) : option ChatThread.t :=
  find (fun t => bool_decide (ChatThread.id t = i)) l.

(** The request of [handleSendText] got its response. *)
Definition succeeded (env : SendEnv) : bool :=
  match send_GoogleGenAI env, generateContent env with
  | Ok _, Ok _ => true
  | _, _ => false
  end.

(** What [handleSendText] makes of a thread when the request settles. *)
Definition settle_thread (env : SendEnv) (p : Pending) (t : ChatThread.t) : ChatThread.t :=
  if decide (ChatThread.id t = currentThreadId p)
  then ChatThread.mk (ChatThread.id t)
         (if succeeded env && (length (ChatThread.messages t) <=? 2)%nat
          then title_of (textToSend p) else ChatThread.title t)
         (fill_placeholder p (reply_text env) (ChatThread.messages t))
         (if succeeded env then send_Date env else ChatThread.updatedAt t)
  else t.

(** The two messages of a text exchange: what the user typed, and the
    assistant's message, first as the placeholder and then with its text. *)
Definition userMessage (now : DateSite -> N) (textToSend : list N) : Message.t :=
  Message.mk (str "ut-" ++ toString (now UserId)) user textToSend (now UserTimestamp) None.

Definition assistantMessage (now : DateSite -> N) (text : list N) (typing : bool) : Message.t :=
  Message.mk (str "at-" ++ toString (now AssistantId)) assistant text
    (now AssistantTimestamp) (Some typing).

(** The selected thread, if any, is in the list. *)
Definition selection_exists (s : AppState) : Prop :=
  forall i, activeThreadId s = Some i -> is_Some (by_id i (threads s)).

(** * Properties *)

Ltac unfold_M :=
  unfold mbind, M_bind, mret, M_ret, update, get, call, when_, try_catch in *.

(** ** Equations of the message handler *)

Lemma with_currentInputTextRef_id s :
  with_currentInputTextRef (currentInputTextRef s) s = s.
Proof. now destruct s. Qed.

Lemma with_currentOutputTextRef_id s :
  with_currentOutputTextRef (currentOutputTextRef s) s = s.
Proof. now destruct s. Qed.

Lemma append_transcripts_eq sc s :
  append_transcripts sc s =
    (Ok tt, with_currentOutputTextRef
              (currentOutputTextRef s ++ fragment (sc ≫= outputTranscription))
              (with_currentInputTextRef
                 (currentInputTextRef s ++ fragment (sc ≫= inputTranscription)) s)).
Proof.
  unfold append_transcripts. unfold_M.
  destruct sc as [sc|]; cbn;
    [destruct (inputTranscription sc), (outputTranscription sc); cbn|];
    rewrite ?app_nil_r, ?with_currentInputTextRef_id; try reflexivity;
    now destruct s.
Qed.

Lemma complete_turn_eq env s : complete_turn env s = (Ok tt, completed env s).
Proof.
  unfold complete_turn, completed, cleared, newT, currentId. unfold_M. cbn.
  destruct (truthy (trim (currentInputTextRef s)) || truthy (trim (currentOutputTextRef s)));
    [|reflexivity].
  destruct (truthy_opt (closure_activeThreadId env)); reflexivity.
Qed.

Lemma completed_empty env s :
  trim (currentInputTextRef s) = [] -> trim (currentOutputTextRef s) = [] ->
  completed env s = cleared s.
Proof. intros Hi Ho. unfold completed. now rewrite Hi, Ho. Qed.

Lemma handle_interrupted_eq env s :
  handle_interrupted env s = (Ok tt, silenced (currentTime env) s).
Proof. reflexivity. Qed.

Lemma schedule_chunk_ok env data s ctx buffer :
  outputAudioContextRef s = Some ctx -> truthy_opt data = true ->
  decodeAudioData env = Ok buffer ->
  schedule_chunk env data s = (Ok tt, scheduled (currentTime env) buffer s).
Proof.
  intros Hctx Hdata Hdec. unfold schedule_chunk. unfold_M. cbn.
  rewrite Hctx, Hdata. cbn. now rewrite Hdec.
Qed.

Lemma schedule_chunk_skip env data s :
  outputAudioContextRef s = None \/ truthy_opt data = false ->
  schedule_chunk env data s = (Ok tt, s).
Proof.
  intros H. unfold schedule_chunk. unfold_M. cbn.
  destruct (outputAudioContextRef s); [|reflexivity].
  destruct H as [H|H]; [discriminate|]. now rewrite H.
Qed.

Lemma schedule_chunk_raise env data s ctx e :
  outputAudioContextRef s = Some ctx -> truthy_opt data = true ->
  decodeAudioData env = Raise e ->
  schedule_chunk env data s = (Raise e, undecoded (currentTime env) s).
Proof.
  intros Hctx Hdata Hdec. unfold schedule_chunk. unfold_M. cbn.
  rewrite Hctx, Hdata. cbn. now rewrite Hdec.
Qed.

(** The three ways the chunk step ends. *)
Lemma schedule_chunk_cases env data s :
  schedule_chunk env data s = (Ok tt, s) \/
  (exists buffer, decodeAudioData env = Ok buffer /\
     schedule_chunk env data s = (Ok tt, scheduled (currentTime env) buffer s)) \/
  (exists e, decodeAudioData env = Raise e /\
     schedule_chunk env data s = (Raise e, undecoded (currentTime env) s)).
Proof.
  destruct (outputAudioContextRef s) as [ctx|] eqn:Hctx;
    [destruct (truthy_opt data) eqn:Hdata|].
  - destruct (decodeAudioData env) as [buffer|e] eqn:Hdec.
    + right; left. exists buffer. split; [reflexivity|]. now apply schedule_chunk_ok with ctx.
    + right; right. exists e. split; [reflexivity|]. now apply schedule_chunk_raise with ctx.
  - left. apply schedule_chunk_skip. now right.
  - left. apply schedule_chunk_skip. now left.
Qed.

Lemma schedule_chunk_decoded env data s :
  decoded env ->
  schedule_chunk env data s = (Ok tt, s) \/
  exists buffer, schedule_chunk env data s = (Ok tt, scheduled (currentTime env) buffer s).
Proof.
  intros [buffer Hdec].
  destruct (schedule_chunk_cases env data s) as [H|[(b & _ & H)|(e & He & _)]];
    [now left|right; now exists b|congruence].
Qed.

Lemma onmessage_eq env message s s1 :
  schedule_chunk env (serverContent message ≫= inlineData) s = (Ok tt, s1) ->
  onmessage env message s = (Ok tt, finish env (serverContent message) s1).
Proof.
  intros H1. unfold onmessage, finish. unfold mbind at 1, M_bind. rewrite H1.
  unfold mbind at 1, M_bind. rewrite append_transcripts_eq.
  unfold when_, mbind, M_bind, mret, M_ret.
  destruct (default false (turnComplete <$> serverContent message));
    rewrite ?complete_turn_eq;
    now destruct (default false (interrupted <$> serverContent message)).
Qed.

Lemma onmessage_raise env message s e s1 :
  schedule_chunk env (serverContent message ≫= inlineData) s = (Raise e, s1) ->
  onmessage env message s = (Raise e, s1).
Proof. intros H. unfold onmessage. unfold mbind at 1, M_bind. now rewrite H. Qed.

Lemma after_no_audio env message sc s :
  serverContent message = Some sc -> inlineData sc = None ->
  after (Msg env message) s = finish env (Some sc) s.
Proof.
  intros Hsc Hdata. unfold after, handler.
  rewrite (onmessage_eq env message s s)
    by (apply schedule_chunk_skip; right; rewrite Hsc; cbn; now rewrite Hdata).
  now rewrite Hsc.
Qed.

(** What the rest of the handler leaves alone. *)
Lemma completed_frame env s :
  nodes (completed env s) = nodes s /\
  nextStartTimeRef (completed env s) = nextStartTimeRef s /\
  sourcesRef (completed env s) = sourcesRef s /\
  outputAudioContextRef (completed env s) = outputAudioContextRef s /\
  inputAudioContextRef (completed env s) = inputAudioContextRef s.
Proof.
  unfold completed, cleared.
  destruct (truthy (trim (currentInputTextRef s)) || truthy (trim (currentOutputTextRef s))),
    (truthy_opt (closure_activeThreadId env)); now cbn.
Qed.

Lemma finish_playback env sc s1 :
  default false (interrupted <$> sc) = false ->
  nodes (finish env sc s1) = nodes s1 /\
  nextStartTimeRef (finish env sc s1) = nextStartTimeRef s1 /\
  sourcesRef (finish env sc s1) = sourcesRef s1 /\
  outputAudioContextRef (finish env sc s1) = outputAudioContextRef s1.
Proof.
  intros Hi. unfold finish. rewrite Hi.
  destruct (default false (turnComplete <$> sc)); [|now cbn].
  match goal with |- context [completed env ?s] =>
    destruct (completed_frame env s) as (-> & -> & -> & -> & _) end.
  now cbn.
Qed.

Lemma finish_interrupted env sc s1 :
  default false (interrupted <$> sc) = true ->
  exists s3,
    nodes s3 = nodes s1 /\ sourcesRef s3 = sourcesRef s1 /\
    finish env sc s1 = silenced (currentTime env) s3.
Proof.
  intros Hi. unfold finish. rewrite Hi.
  set (s2 := with_currentOutputTextRef _ _).
  destruct (default false (turnComplete <$> sc)).
  - exists (completed env s2).
    destruct (completed_frame env s2) as (Hn & _ & Hs & _). now rewrite Hn, Hs.
  - now exists s2.
Qed.

Lemma finish_contexts env sc s1 :
  inputAudioContextRef (finish env sc s1) = inputAudioContextRef s1 /\
  outputAudioContextRef (finish env sc s1) = outputAudioContextRef s1.
Proof.
  unfold finish. set (s2 := with_currentOutputTextRef _ _).
  set (s3 := if default false (turnComplete <$> sc) then completed env s2 else s2).
  assert (H3 : inputAudioContextRef s3 = inputAudioContextRef s1 /\
               outputAudioContextRef s3 = outputAudioContextRef s1).
  { subst s3. destruct (default false (turnComplete <$> sc));
      [destruct (completed_frame env s2) as (_ & _ & _ & -> & ->)|]; now subst s2. }
  destruct (default false (interrupted <$> sc)); exact H3.
Qed.

Lemma finish_empty_turn env sc s1 :
  turnComplete sc = true ->
  trim (currentInputTextRef s1 ++ fragment (inputTranscription sc)) = [] ->
  trim (currentOutputTextRef s1 ++ fragment (outputTranscription sc)) = [] ->
  threads (finish env (Some sc) s1) = threads s1 /\
  activeThreadId (finish env (Some sc) s1) = activeThreadId s1 /\
  currentInputTextRef (finish env (Some sc) s1) = [] /\
  currentOutputTextRef (finish env (Some sc) s1) = [].
Proof.
  intros Htc Hi Ho. unfold finish.
  cbn [fmap option_fmap option_map default mbind option_bind].
  rewrite Htc, completed_empty by (cbn; assumption).
  now destruct (interrupted sc).
Qed.

(** ** Level metering *)

Lemma sum_cons (x : R) (l : list R) : sum (x :: l) = x + sum l.
Proof. reflexivity. Qed.

(** The accumulation loop computes the sum of the squares. *)
Lemma fold_left_squares (l : list R) (acc : R) :
  fold_left (fun sum x => sum + x * x) l acc = acc + sum (map (fun x => x ^ 2) l).
Proof.
  revert acc. induction l as [|x l IH]; intros acc.
  - unfold sum. simpl. lra.
  - cbn [fold_left map]. rewrite IH, sum_cons. lra.
Qed.

Lemma level_rms (frame : list R) : level frame = root_mean_square frame.
Proof.
  unfold level, root_mean_square, mean.
  rewrite fold_left_squares, length_map. f_equal. lra.
Qed.

Lemma sum_squares_unit (l : list R) :
  Forall (fun x => Rabs x = 1) l -> sum (map (fun x => x ^ 2) l) = INR (length l).
Proof.
  induction 1 as [|x l Hx _ IH].
  - reflexivity.
  - cbn [map length]. rewrite sum_cons, IH, S_INR.
    assert (x ^ 2 = 1); [|lra].
    rewrite <- (Rabs_pos_eq (x ^ 2)) by apply pow2_ge_0.
    rewrite <- RPow_abs, Hx. lra.
Qed.

Lemma sum_squares_zero (l : list R) :
  Forall (fun x => x = 0) l -> sum (map (fun x => x ^ 2) l) = 0.
Proof.
  induction 1 as [|x l Hx _ IH].
  - reflexivity.
  - cbn [map]. rewrite sum_cons, IH, Hx. lra.
Qed.

(** On doubles, a script-processor buffer (2048 samples) of zeros has level
    exactly 0 and one of samples of magnitude 1 has level exactly 1; an empty
    frame would have level NaN, the case the real-number model leaves out. *)
Example level_double_silent :
  level_double (repeat PrimFloat.zero 2048) = PrimFloat.zero.
Proof. vm_compute. reflexivity. Qed.

Example level_double_full_scale :
  level_double (repeat PrimFloat.one 2048) = PrimFloat.one /\
  level_double (repeat (PrimFloat.opp PrimFloat.one) 2048) = PrimFloat.one.
Proof. split; vm_compute; reflexivity. Qed.

Example level_double_empty : PrimFloat.is_nan (level_double []) = true.
Proof. vm_compute. reflexivity. Qed.

(** C9.  For every captured frame (a script-processor buffer is never
    empty), [onaudioprocess] returns and reports as [audioLevel] the root
    mean square of the frame's samples; a frame of zero samples gives level
    0 and a frame whose samples all have magnitude 1 gives level 1. *)
Theorem level_metering (frame : list R) (s : AppState) :
  frame <> [] ->
  onaudioprocess frame s = (Ok tt, with_audioLevel (root_mean_square frame) s) /\
  (Forall (fun x => x = 0) frame -> level frame = 0) /\
  (Forall (fun x => Rabs x = 1) frame -> level frame = 1).
Proof.
  intros Hne. split; [|split].
  - unfold onaudioprocess, update. now rewrite level_rms.
  - intros H0. rewrite level_rms. unfold root_mean_square, mean.
    rewrite (sum_squares_zero _ H0). unfold Rdiv. rewrite Rmult_0_l. apply sqrt_0.
  - intros H1. rewrite level_rms. unfold root_mean_square, mean.
    rewrite (sum_squares_unit _ H1), length_map.
    unfold Rdiv. rewrite Rinv_r; [apply sqrt_1|].
    apply not_0_INR. destruct frame; [contradiction|discriminate].
Qed.

Lemma level_metering_witness :
  level [1; -1; 1; -1] = 1 /\ level [0; 0; 0; 0] = 0.
Proof.
  destruct (level_metering [1; -1; 1; -1] (initial_state [])) as (_ & _ & H1); [discriminate|].
  destruct (level_metering [0; 0; 0; 0] (initial_state [])) as (_ & H0 & _); [discriminate|].
  split.
  - apply H1.
    repeat (apply List.Forall_cons; [unfold Rabs; destruct (Rcase_abs _); lra|]).
    apply List.Forall_nil.
  - apply H0. repeat (apply List.Forall_cons; [reflexivity|]). apply List.Forall_nil.
Defined.

(** ** Playback scheduling *)

Lemma after_delivers e cd s :
  delivers e cd -> is_Some (outputAudioContextRef s) ->
  nodes (after e s) = nodes s ++
    [{| buffer := {| duration := cd.2 |};
        when := Rmax (nextStartTimeRef s) cd.1; stopped := None |}] /\
  nextStartTimeRef (after e s) = Rmax (nextStartTimeRef s) cd.1 + cd.2 /\
  is_Some (outputAudioContextRef (after e s)).
Proof.
  intros (env & sc & data & -> & Hdata & Htruthy & Hint & Hc & Hd) [ctx Hctx].
  unfold after, handler.
  erewrite onmessage_eq;
    [|cbn; rewrite Hdata; apply schedule_chunk_ok with ctx; [exact Hctx|exact Htruthy|exact Hd]].
  cbn [snd serverContent].
  destruct (finish_playback env (Some sc) (scheduled (currentTime env) {| duration := cd.2 |} s))
    as (-> & -> & _ & ->); [exact Hint|].
  cbn. rewrite Hc, Hctx. eauto.
Qed.





Lemma delivers_audio_chunk (c d : R) : delivers (Msg (at_clock c d) audio_chunk) (c, d).
Proof. now eexists _, _, _. Qed.



(** ** The scheduling clock *)

Lemma after_interruption_clock env message sc s :
  serverContent message = Some sc -> interrupted sc = true -> decoded env ->
  nextStartTimeRef (after (Msg env message) s) = 0.
Proof.
  intros Hsc Hint Hdec. unfold after, handler.
  destruct (schedule_chunk_decoded env (serverContent message ≫= inlineData) s Hdec)
    as [H|(b & H)]; rewrite (onmessage_eq _ _ _ _ H); cbn [snd];
    match goal with |- context [finish env ?c ?s1] =>
      destruct (finish_interrupted env c s1) as (s3 & _ & _ & ->);
        [now rewrite Hsc|reflexivity] end.
Qed.

(** C2, as stated, fails.  A session that has a chunk scheduled at clock 1
    has [nextStartTimeRef] at or after the clock; once the interruption that
    arrives at that same clock reading is handled, [nextStartTimeRef] is 0,
    below the clock. *)
Lemma interrupted_resets_below_clock :
  let s := after (Msg (at_clock 1 (1/2)) audio_chunk) open_session in
  let s' := after (Msg (at_clock 1 0) interruption) s in
  1 <= nextStartTimeRef s /\ ~ (1 <= nextStartTimeRef s').
Proof.
  split.
  - change (1 <= Rmax 0 1 + 1/2). pose proof (Rmax_r 0 1). lra.
  - change (~ (1 <= 0)). lra.
Qed.

(** C2, amended.  Whenever a chunk is scheduled, the start time given to
    the source node is at or after the output clock's reading, and
    [nextStartTimeRef] is advanced to exactly that start time plus the
    chunk's duration (so, the duration being non-negative, it is not below
    the clock either); after an interrupted event [nextStartTimeRef] is 0,
    whatever the clock reads. *)
Theorem scheduling_clock (s : AppState) :
  (forall e c d, delivers e (c, d) -> is_Some (outputAudioContextRef s) -> 0 <= d ->
     exists n, nodes (after e s) !! length (nodes s) = Some n /\
       c <= when n /\ nextStartTimeRef (after e s) = when n + d /\
       c <= nextStartTimeRef (after e s)) /\
  (forall env message sc,
     serverContent message = Some sc -> interrupted sc = true -> decoded env ->
     nextStartTimeRef (after (Msg env message) s) = 0).
Proof.
  split.
  - intros e c d He Hctx Hd.
    destruct (after_delivers e (c, d) s He Hctx) as (Hn & Ht & _). cbn [fst snd] in *.
    eexists. rewrite Hn, Ht. split; [apply list_lookup_middle; reflexivity|].
    cbn. pose proof (Rmax_r (nextStartTimeRef s) c). repeat split; lra.
  - intros env message sc. apply after_interruption_clock.
Qed.

Lemma scheduling_clock_witness :
  (exists n,
     nodes (after (Msg (at_clock 1 (1/2)) audio_chunk) open_session) !! 0%nat = Some n /\
     1 <= when n) /\
  nextStartTimeRef (after (Msg (at_clock 1 0) interruption) open_session) = 0.
Proof.
  destruct (scheduling_clock open_session) as [Hchunk Hint]. split.
  - destruct (Hchunk (Msg (at_clock 1 (1/2)) audio_chunk) 1 (1/2)) as (n & Hn & Hw & _).
    + apply delivers_audio_chunk.
    + now eexists.
    + lra.
    + exists n. split; [exact Hn|exact Hw].
  - apply (Hint (at_clock 1 0) interruption _ eq_refl eq_refl). now eexists.
Defined.

(** ** Interruption *)

Lemma stop_all_lookup now (registry : gset nat) (ns : list AudioBufferSourceNode) (i : nat) :
  stop_all now registry ns !! i =
    if decide (i ∈ registry) then stop now <$> ns !! i else ns !! i.
Proof.
  unfold stop_all. revert i.
  refine (set_fold_ind_L (fun acc (X : gset nat) => forall i,
            acc !! i = if decide (i ∈ X) then stop now <$> ns !! i else ns !! i)
            _ ns _ _ registry).
  - intros i. rewrite decide_False; [reflexivity|apply not_elem_of_empty].
  - intros x X acc Hx IH i. destruct (decide (i = x)) as [->|Hne].
    + rewrite list_lookup_alter_eq, IH.
      rewrite decide_False by exact Hx.
      rewrite decide_True; [reflexivity|]. apply elem_of_union_l. now apply elem_of_singleton.
    + rewrite list_lookup_alter_ne by congruence. rewrite IH.
      destruct (decide (i ∈ X)) as [Hin|Hnin].
      * rewrite decide_True; [reflexivity|]. now apply elem_of_union_r.
      * rewrite decide_False; [reflexivity|].
        intros [Hi%elem_of_singleton|Hi]%elem_of_union; [congruence|contradiction].
Qed.

(** A stopped node is silent from the time of the call on. *)
Lemma stop_silent now n t : now <= t -> ~ audible (stop now n) t.
Proof.
  intros Hle [_ Hs]. cbn in Hs. destruct (stopped n) as [ts|]; [|lra].
  pose proof (Rmin_r ts now). lra.
Qed.

(** C3.  Interruption clears all: when a message that carries the
    interrupted flag is handled (its chunk, if it has one, decodes), the
    handler returns, the registry [sourcesRef] is empty, and no source node
    that was in the registry before renders audio at any time from the
    clock reading of the event on. *)
Theorem interruption_clears_all (env : MessageEnv) (message : LiveServerMessage)
    (sc : ServerContent) (s : AppState) :
  serverContent message = Some sc -> interrupted sc = true -> decoded env ->
  let s' := after (Msg env message) s in
  onmessage env message s = (Ok tt, s') /\
  sourcesRef s' = ∅ /\
  forall source, source ∈ sourcesRef s ->
    forall t, currentTime env <= t -> ~ fires s' source t.
Proof.
  intros Hsc Hint Hdec s'. subst s'. unfold after, handler.
  assert (exists s1, schedule_chunk env (serverContent message ≫= inlineData) s = (Ok tt, s1) /\
            sourcesRef s ⊆ sourcesRef s1) as (s1 & Hs1 & Hsub).
  { destruct (schedule_chunk_decoded env (serverContent message ≫= inlineData) s Hdec)
      as [H|(b & H)]; eexists; (split; [exact H|]).
    - reflexivity.
    - cbn. apply union_subseteq_r. }
  rewrite (onmessage_eq _ _ _ _ Hs1). cbn [snd].
  destruct (finish_interrupted env (serverContent message) s1) as (s3 & Hn & Hr & ->).
  { now rewrite Hsc. }
  split; [reflexivity|]. split; [reflexivity|].
  intros source Hin t Ht (n & Hlook & Haud). cbn in Hlook.
  rewrite stop_all_lookup, decide_True in Hlook by (rewrite Hr; apply Hsub, Hin).
  destruct (nodes s3 !! source) as [n0|]; [|discriminate].
  injection Hlook as <-. now apply (stop_silent _ _ _ Ht) in Haud.
Qed.

(** A two-second chunk scheduled at clock 0 and interrupted at clock 1 is
    silent at clock 1. *)
Lemma interruption_clears_all_witness :
  let s := after (Msg (at_clock 0 2) audio_chunk) open_session in
  let s' := after (Msg (at_clock 1 0) interruption) s in
  fires s 0%nat 1 /\ sourcesRef s' = ∅ /\ ~ fires s' 0%nat 1.
Proof.
  intros s s'.
  destruct (interruption_clears_all (at_clock 1 0) interruption _ s eq_refl eq_refl)
    as (_ & Hempty & Hsilent); [now eexists|].
  split; [|split; [exact Hempty|]].
  - eexists. split; [reflexivity|].
    change (Rmax 0 0 <= 1 < Rmax 0 0 + 2 /\ True).
    assert (Rmax 0 0 = 0) as -> by (apply Rmax_left; lra). lra.
  - apply Hsilent.
    + change (0%nat ∈ ({[0%nat]} ∪ ∅ : gset nat)). apply elem_of_union_l. now apply elem_of_singleton.
    + change (1 <= 1). lra.
Defined.

(** ** Turn aggregation *)

Lemma trimStart_whitespace s : whitespace_only s -> trimStart s = [].
Proof.
  unfold whitespace_only. induction s as [|c s IH]; [reflexivity|].
  cbn [forallb trimStart]. intros [Hc Hs]%andb_prop. rewrite Hc. now apply IH.
Qed.

Lemma trim_whitespace s : whitespace_only s -> trim s = [].
Proof. intros H. unfold trim. now rewrite (trimStart_whitespace s H). Qed.

Lemma trimStart_nil s : trimStart s = [] -> whitespace_only s.
Proof.
  unfold whitespace_only. induction s as [|c s IH]; [reflexivity|].
  cbn [forallb trimStart]. destruct (is_white_space c); [exact IH|discriminate].
Qed.

Lemma trimStart_head s c s' : trimStart s = c :: s' -> is_white_space c = false.
Proof.
  induction s as [|c0 s IH]; [discriminate|]. cbn [trimStart].
  destruct (is_white_space c0) eqn:E; [exact IH|]. now intros [= <- _].
Qed.

(** [trim] yields the empty string on the whitespace-only strings and on
    no other. *)
Lemma trim_nil s : trim s = [] -> whitespace_only s.
Proof.
  unfold trim, trimEnd. intros H. apply trimStart_nil.
  destruct (trimStart s) as [|c s'] eqn:E; [reflexivity|exfalso].
  apply (f_equal (@rev N)) in H. rewrite rev_involutive in H. cbn [rev] in H.
  apply trimStart_nil in H. unfold whitespace_only in H.
  rewrite forallb_app in H. apply andb_prop in H as [_ H]. cbn in H.
  rewrite (trimStart_head _ _ _ E) in H. discriminate.
Qed.

Lemma after_input_fragment env t s :
  after (Msg env (input_fragment t)) s =
    with_currentInputTextRef (currentInputTextRef s ++ t) s.
Proof.
  erewrite after_no_audio; [|reflexivity|reflexivity]. unfold finish.
  cbn [fmap option_fmap option_map default mbind option_bind
       turnComplete interrupted inputTranscription outputTranscription fragment
       toString_opt text].
  rewrite app_nil_r. now destruct s.
Qed.

Lemma after_output_fragment env t s :
  after (Msg env (output_fragment t)) s =
    with_currentOutputTextRef (currentOutputTextRef s ++ t) s.
Proof.
  erewrite after_no_audio; [|reflexivity|reflexivity]. unfold finish.
  cbn [fmap option_fmap option_map default mbind option_bind
       turnComplete interrupted inputTranscription outputTranscription fragment
       toString_opt text].
  rewrite app_nil_r. now destruct s.
Qed.

Lemma after_turn_complete env s :
  after (Msg env turn_complete) s = completed env s.
Proof.
  erewrite after_no_audio; [|reflexivity|reflexivity]. unfold finish.
  cbn [fmap option_fmap option_map default mbind option_bind
       turnComplete interrupted inputTranscription outputTranscription fragment].
  now rewrite !app_nil_r, with_currentInputTextRef_id, with_currentOutputTextRef_id.
Qed.

(** C4.  Turn aggregation: from empty accumulators, the input fragments
    "Hello " and "world" and the output fragment "Hi" followed by
    turn-complete make [newMsgs] exactly the user message "Hello world"
    followed by the assistant message "Hi"; they are appended to the thread
    [currentId] (created first when the closure holds no thread id), and
    both accumulators are empty afterwards. *)
Theorem turn_aggregation (s : AppState) (e1 e2 e3 env : MessageEnv) :
  currentInputTextRef s = [] -> currentOutputTextRef s = [] ->
  let s' := run [Msg e1 (input_fragment (str "Hello "));
                 Msg e2 (input_fragment (str "world"));
                 Msg e3 (output_fragment (str "Hi"));
                 Msg env turn_complete] s in
  let msgs :=
    [Message.mk (str "u-" ++ toString (Date_now env UserId)) user
       (str "Hello world") (Date_now env UserTimestamp) None;
     Message.mk (str "a-" ++ toString (Date_now env AssistantId)) assistant
       (str "Hi") (Date_now env AssistantTimestamp) None] in
  let prev :=
    if truthy_opt (closure_activeThreadId env) then threads s
    else newT env :: threads s in
  newMsgs env (trim (str "Hello " ++ str "world")) (trim (str "Hi")) = msgs /\
  threads s' = append_to_thread env (currentId env) msgs prev /\
  currentInputTextRef s' = [] /\ currentOutputTextRef s' = [].
Proof.
  intros Hi Ho. cbn zeta. unfold run. cbn [fold_left].
  rewrite !after_input_fragment, after_output_fragment, after_turn_complete.
  split; [reflexivity|].
  unfold completed, cleared.
  cbn [currentInputTextRef currentOutputTextRef threads
       with_currentInputTextRef with_currentOutputTextRef].
  rewrite Hi, Ho.
  change (trim (([] ++ str "Hello ") ++ str "world")) with (str "Hello world").
  change (trim ([] ++ str "Hi")) with (str "Hi").
  change (truthy (str "Hello world") || truthy (str "Hi")) with true.
  change (newMsgs env (str "Hello world") (str "Hi")) with
    [Message.mk (str "u-" ++ toString (Date_now env UserId)) user
       (str "Hello world") (Date_now env UserTimestamp) None;
     Message.mk (str "a-" ++ toString (Date_now env AssistantId)) assistant
       (str "Hi") (Date_now env AssistantTimestamp) None].
  now destruct (truthy_opt (closure_activeThreadId env)).
Qed.

(** From the state at mount, with no thread selected, the turn opens the
    thread "Voice Interaction" holding the two messages. *)
Lemma turn_aggregation_witness :
  let env := at_clock 0 0 in
  let s' := run [Msg env (input_fragment (str "Hello "));
                 Msg env (input_fragment (str "world"));
                 Msg env (output_fragment (str "Hi"));
                 Msg env turn_complete] (initial_state []) in
  map (fun t => map (fun m => (Message.role m, Message.text m)) (ChatThread.messages t))
      (threads s') =
    [[(user, str "Hello world"); (assistant, str "Hi")]] /\
  currentInputTextRef s' = [] /\ currentOutputTextRef s' = [].
Proof.
  intros env s'.
  destruct (turn_aggregation (initial_state []) env env env env eq_refl eq_refl)
    as (_ & Ht & Hi & Ho).
  split; [|split; [exact Hi|exact Ho]].
  subst s'. rewrite Ht. reflexivity.
Defined.

(** C5.  Empty turn: when turn-complete is handled while both accumulators
    (with the fragments of the same message appended) hold only white space,
    [newMsgs] would be empty and is not even appended: the threads are
    unchanged, and both accumulators are cleared all the same. *)
Theorem empty_turn_no_messages (env : MessageEnv) (message : LiveServerMessage)
    (sc : ServerContent) (s : AppState) :
  serverContent message = Some sc -> turnComplete sc = true -> decoded env ->
  whitespace_only (currentInputTextRef s ++ fragment (inputTranscription sc)) ->
  whitespace_only (currentOutputTextRef s ++ fragment (outputTranscription sc)) ->
  let s' := after (Msg env message) s in
  onmessage env message s = (Ok tt, s') /\
  newMsgs env (trim (currentInputTextRef s ++ fragment (inputTranscription sc)))
              (trim (currentOutputTextRef s ++ fragment (outputTranscription sc))) = [] /\
  threads s' = threads s /\
  currentInputTextRef s' = [] /\ currentOutputTextRef s' = [].
Proof.
  intros Hsc Htc Hdec Hi%trim_whitespace Ho%trim_whitespace s'. subst s'.
  unfold after, handler. rewrite Hi, Ho.
  destruct (schedule_chunk_decoded env (serverContent message ≫= inlineData) s Hdec)
    as [H|(b & H)]; rewrite (onmessage_eq _ _ _ _ H), Hsc; cbn [snd];
    match goal with |- context [finish env _ ?s1] =>
      destruct (finish_empty_turn env sc s1 Htc) as (-> & _ & -> & ->);
        [assumption|assumption|] end;
    now repeat split.
Qed.

(** A turn of blanks and line breaks. *)
Lemma empty_turn_no_messages_witness :
  let s := run [Msg (at_clock 0 0) (input_fragment (str "  "));
                Msg (at_clock 0 0) (output_fragment [10; 9; 160]%N)] open_session in
  let s' := after (Msg (at_clock 0 0) turn_complete) s in
  currentInputTextRef s = str "  " /\
  threads s' = [] /\ currentInputTextRef s' = [] /\ currentOutputTextRef s' = [].
Proof.
  intros s s'.
  destruct (empty_turn_no_messages (at_clock 0 0) turn_complete _ s eq_refl eq_refl)
    as (_ & _ & Ht & Hi & Ho).
  - now eexists.
  - reflexivity.
  - reflexivity.
  - split; [reflexivity|]. split; [exact Ht|]. split; [exact Hi|exact Ho].
Defined.

(** C10.  Frame of an empty turn: when the trimmed input and output texts
    are both empty the turn block only clears the two accumulators; for
    every message that carries turn-complete then, the thread list and the
    selected thread are unchanged, and a message that carries nothing else
    leaves the whole state as it was but for the cleared accumulators. *)
Theorem empty_turn_frame (env : MessageEnv) (s : AppState) :
  trim (currentInputTextRef s) = [] -> trim (currentOutputTextRef s) = [] ->
  complete_turn env s = (Ok tt, cleared s) /\
  forall message sc,
    serverContent message = Some sc -> turnComplete sc = true ->
    inputTranscription sc = None -> outputTranscription sc = None ->
    (threads (after (Msg env message) s) = threads s /\
     activeThreadId (after (Msg env message) s) = activeThreadId s) /\
    (inlineData sc = None -> interrupted sc = false ->
     onmessage env message s = (Ok tt, cleared s)).
Proof.
  intros Hi Ho. split; [now rewrite complete_turn_eq, completed_empty|].
  intros message sc Hsc Htc Hin Hout.
  assert (Hfin : forall s1,
    currentInputTextRef s1 = currentInputTextRef s ->
    currentOutputTextRef s1 = currentOutputTextRef s ->
    threads (finish env (Some sc) s1) = threads s1 /\
    activeThreadId (finish env (Some sc) s1) = activeThreadId s1).
  { intros s1 E1 E2.
    destruct (finish_empty_turn env sc s1 Htc) as (-> & -> & _); [| |now split];
      rewrite ?E1, ?E2, ?Hin, ?Hout; cbn [fragment]; now rewrite app_nil_r. }
  split.
  - unfold after, handler.
    destruct (schedule_chunk_cases env (serverContent message ≫= inlineData) s)
      as [H|[(b & _ & H)|(e & _ & H)]].
    + rewrite (onmessage_eq _ _ _ _ H), Hsc. now apply Hfin.
    + rewrite (onmessage_eq _ _ _ _ H), Hsc. cbn [snd].
      now destruct (Hfin (scheduled (currentTime env) b s) eq_refl eq_refl) as [-> ->].
    + now rewrite (onmessage_raise _ _ _ _ _ H).
  - intros Hdata Hint.
    rewrite (onmessage_eq env message s s)
      by (apply schedule_chunk_skip; right; rewrite Hsc; cbn; now rewrite Hdata).
    rewrite Hsc. unfold finish.
    cbn [fmap option_fmap option_map default mbind option_bind].
    rewrite Htc, Hint, Hin, Hout. cbn [fragment]. rewrite !app_nil_r.
    rewrite with_currentInputTextRef_id, with_currentOutputTextRef_id.
    now rewrite completed_empty.
Qed.

Lemma empty_turn_frame_witness :
  onmessage (at_clock 0 0) turn_complete open_session = (Ok tt, cleared open_session) /\
  threads (after (Msg (at_clock 0 0) turn_complete) open_session) = [] /\
  activeThreadId (after (Msg (at_clock 0 0) turn_complete) open_session) = None.
Proof.
  destruct (empty_turn_frame (at_clock 0 0) open_session eq_refl eq_refl) as [_ H].
  destruct (H turn_complete _ eq_refl eq_refl eq_refl eq_refl) as [[Ht Ha] Hs].
  split; [exact (Hs eq_refl eq_refl)|]. split; [exact Ht|exact Ha].
Defined.

(** ** Starting and stopping the session *)

Lemma stopLiveSession_eq env s : stopLiveSession env s = (Ok tt, torn_down s).
Proof.
  unfold stopLiveSession, torn_down. unfold_M. cbn.
  destruct (bool_decide (is_Some (sessionRef s))); [destruct (session_close env)|]; cbn;
    (destruct (bool_decide (is_Some (streamRef s))); cbn);
    (destruct (open_context (inputAudioContextRef s)); cbn);
    (destruct (open_context (outputAudioContextRef s)); reflexivity).
Qed.

Lemma open_context_true ref :
  (forall ctx, ref = Some ctx -> state ctx <> closed) ->
  open_context ref = bool_decide (is_Some ref).
Proof.
  intros H. destruct ref as [ctx|]; [|reflexivity]. cbn.
  now rewrite bool_decide_eq_true_2 by now apply H.
Qed.

Lemma torn_down_released s : contexts_open s -> released (torn_down s) /\ idle (torn_down s).
Proof.
  intros [Hin Hout]. unfold torn_down, released, idle.
  destruct s as [th at_ li sp ini al ictx octx nx sr se st co ci ns]. cbn in Hin, Hout.
  destruct se, st; cbn;
    rewrite (open_context_true ictx Hin); destruct ictx; cbn;
    rewrite (open_context_true octx Hout); destruct octx; cbn;
    repeat split; reflexivity.
Qed.

(** Tearing down a state that holds nothing changes nothing more. *)
Lemma torn_down_idempotent s : released (torn_down s) -> torn_down (torn_down s) = torn_down s.
Proof.
  intros (Hse & Hst & Hi & Ho). unfold torn_down at 1.
  set (t := torn_down s) in *.
  rewrite Hse. cbn [bool_decide decide_rel is_Some_dec]. 
  change (bool_decide (is_Some None)) with false. cbn iota.
  rewrite Hst. change (bool_decide (is_Some None)) with false. cbn iota.
  rewrite Hi. cbn [open_context]. rewrite Ho. cbn [open_context].
  subst t. unfold torn_down. reflexivity.
Qed.

Lemma startLiveSession_busy env s :
  isInitializing s || isLive s = true -> startLiveSession env s = (Ok tt, s).
Proof. intros H. unfold startLiveSession. unfold_M. cbn. now rewrite H. Qed.

(** [startLiveSession] catches whatever its body throws. *)
Lemma startLiveSession_returns env s : (startLiveSession env s).1 = Ok tt.
Proof.
  unfold startLiveSession. unfold_M. cbn.
  destruct (isInitializing s || isLive s); [reflexivity|].
  destruct env as [[[]|] [|] [|] [|] [|]]; reflexivity.
Qed.

Lemma after_Start_contexts env s :
  well_formed (Start env) -> contexts_open s -> contexts_open (after (Start env) s).
Proof.
  intros [Hi Ho] [Hin Hout]. unfold after, handler, startLiveSession. unfold_M. cbn.
  destruct (isInitializing s || isLive s); [now split|].
  destruct env as [[[]|] [sti|] [sto|] [|] [|]]; cbn in *; split;
    try assumption; intros ctx [= <-]; cbn; congruence.
Qed.

Lemma after_Msg_contexts env message s :
  inputAudioContextRef (after (Msg env message) s) = inputAudioContextRef s /\
  outputAudioContextRef (after (Msg env message) s) = outputAudioContextRef s.
Proof.
  unfold after, handler.
  destruct (schedule_chunk_cases env (serverContent message ≫= inlineData) s)
    as [H|[(b & _ & H)|(e & _ & H)]].
  - rewrite (onmessage_eq _ _ _ _ H). apply finish_contexts.
  - rewrite (onmessage_eq _ _ _ _ H). cbn [snd].
    now destruct (finish_contexts env (serverContent message) (scheduled (currentTime env) b s))
      as [-> ->].
  - now rewrite (onmessage_raise _ _ _ _ _ H).
Qed.

Lemma after_Stop_contexts env s : contexts_open s -> contexts_open (after (Stop env) s).
Proof.
  intros H. unfold after, handler. rewrite stopLiveSession_eq. cbn [snd].
  destruct (torn_down_released s H) as [(_ & _ & Hi & Ho) _].
  split; intros ctx; rewrite ?Hi, ?Ho; discriminate.
Qed.

(** No handler leaves a closed context in a ref. *)
Lemma after_contexts_open e s :
  well_formed e -> contexts_open s -> contexts_open (after e s).
Proof.
  destruct e as [env| |inputData|env message|source|env|env|env]; intros Hwf H.
  - now apply after_Start_contexts.
  - exact H.
  - exact H.
  - destruct H as [Hi Ho], (after_Msg_contexts env message s) as [Ei Eo].
    split; intros ctx; rewrite ?Ei, ?Eo; auto.
  - unfold after, handler, onended. unfold_M. cbn.
    now destruct (bool_decide _).
  - now apply after_Stop_contexts.
  - now apply after_Stop_contexts.
  - now apply after_Stop_contexts.
Qed.

(** In every state the component reaches, the contexts it holds are open. *)
Lemma reachable_contexts_open s : reachable s -> contexts_open s.
Proof.
  induction 1 as [saved|e s _ IH Hwf].
  - split; intros ctx; discriminate.
  - now apply after_contexts_open.
Qed.

(** C6, on the code.  A start that fails at the microphone leaves both
    audio contexts in their refs, open, and a start that fails at the
    connection leaves the capture stream as well: the flags are back to
    idle, the resources are not released. *)
Theorem failed_start_keeps_resources :
  let s := after (Start microphone_denied) (initial_state []) in
  let s' := after (Start connection_refused) (initial_state []) in
  (startLiveSession microphone_denied (initial_state []) = (Ok tt, s) /\
   idle s /\
   inputAudioContextRef s = Some {| sampleRate := 16000; state := running |} /\
   outputAudioContextRef s = Some {| sampleRate := 24000; state := running |}) /\
  (startLiveSession connection_refused (initial_state []) = (Ok tt, s') /\
   idle s' /\
   inputAudioContextRef s' = Some {| sampleRate := 16000; state := running |} /\
   outputAudioContextRef s' = Some {| sampleRate := 24000; state := running |} /\
   streamRef s' = Some media_stream).
Proof. repeat split; reflexivity. Qed.

(** C7.  Idempotent teardown: [stopLiveSession] before any start returns
    and leaves the state as it was at mount; in every state whose held
    contexts are open (every reachable state is such) it returns, whatever
    [close()] of the session does, and leaves the flags idle and the
    session, the stream and both contexts released; a second call returns
    as well and changes nothing. *)
Theorem idempotent_teardown :
  (forall saved env,
     stopLiveSession env (initial_state saved) = (Ok tt, initial_state saved) /\
     released (initial_state saved) /\ idle (initial_state saved)) /\
  (forall s env1 env2, contexts_open s ->
     exists s1,
       stopLiveSession env1 s = (Ok tt, s1) /\
       stopLiveSession env2 s1 = (Ok tt, s1) /\
       released s1 /\ idle s1).
Proof.
  split.
  - intros saved env. rewrite stopLiveSession_eq. repeat split; reflexivity.
  - intros s env1 env2 H. exists (torn_down s).
    destruct (torn_down_released s H) as [Hr Hi].
    rewrite !stopLiveSession_eq, (torn_down_idempotent s Hr).
    split; [reflexivity|]. split; [reflexivity|]. split; assumption.
Qed.

(** Stopping an open session twice, the first [close()] throwing. *)
Lemma idempotent_teardown_witness :
  exists s1,
    stopLiveSession close_throws open_session = (Ok tt, s1) /\
    stopLiveSession closes s1 = (Ok tt, s1) /\
    released s1 /\ idle s1.
Proof.
  destruct idempotent_teardown as [_ H].
  apply (H open_session close_throws closes).
  split; intros ctx [= <-]; discriminate.
Defined.

(** C8, as stated, fails.  In an open session ([isLive] holds) a call of
    [startLiveSession] throws nothing. *)
Lemma start_reentry_raises_nothing :
  isLive open_session = true /\
  ~ (exists e s', startLiveSession granted open_session = (Raise e, s')).
Proof.
  split; [reflexivity|]. intros (e & s' & H). discriminate H.
Qed.

(** C8, amended.  A call of [startLiveSession] while the session is
    initializing or live returns without an error and without any effect. *)
Theorem start_reentry_is_noop (env : StartEnv) (s : AppState) :
  isInitializing s || isLive s = true ->
  startLiveSession env s = (Ok tt, s).
Proof. apply startLiveSession_busy. Qed.

Lemma start_reentry_is_noop_witness :
  startLiveSession granted open_session = (Ok tt, open_session).
Proof. apply (start_reentry_is_noop granted open_session). reflexivity. Defined.

(** * Further properties *)

(** ** The level and what is drawn from it *)

Lemma sum_squares_bounded (l : list R) :
  Forall (fun x => -1 <= x <= 1) l ->
  0 <= sum (map (fun x => x ^ 2) l) <= INR (length l).
Proof.
  induction 1 as [|x l Hx _ IH].
  - unfold sum. cbn. lra.
  - cbn [map length]. rewrite sum_cons, S_INR.
    assert (0 <= x ^ 2 <= 1) by nra. lra.
Qed.

(** X1.  The level of a frame of samples in [-1,1] lies in [0,1], and so does
    the [audioLevel] the callback stores. *)
Theorem level_in_unit_interval (frame : list R) (s : AppState) :
  frame <> [] -> Forall (fun x => -1 <= x <= 1) frame ->
  0 <= level frame <= 1 /\ 0 <= audioLevel (after (Frame frame) s) <= 1.
Proof.
  intros Hne Hb.
  assert (H : 0 <= level frame <= 1); [|split; [exact H|exact H]].
  pose proof (sum_squares_bounded frame Hb) as [H0 H1].
  assert (Hn : 0 < INR (length frame)).
  { apply lt_0_INR. destruct frame; [contradiction|cbn; lia]. }
  rewrite level_rms. unfold root_mean_square, mean. rewrite length_map in *.
  split; [apply sqrt_pos|].
  rewrite <- sqrt_1. apply sqrt_le_1_alt.
  apply (Rmult_le_reg_r (INR (length frame))); [exact Hn|].
  unfold Rdiv. rewrite Rmult_assoc, Rinv_l by lra. lra.
Qed.

Lemma level_in_unit_interval_witness :
  0 <= level [1/2; -1/2; 1; 0] <= 1.
Proof.
  apply (level_in_unit_interval [1/2; -1/2; 1; 0] (initial_state [])); [discriminate|].
  repeat (apply List.Forall_cons; [lra|]). apply List.Forall_nil.
Defined.

(** X2.  [audioLevel] is never negative. *)
Lemma reachable_audioLevel s : reachable s -> 0 <= audioLevel s.
Proof.
  induction 1 as [saved|e s _ IH Hwf]; [cbn; lra|].
  destruct e as [env| |inputData|env message|source|env|env|env]; unfold after, handler.
  - unfold startLiveSession. unfold_M. cbn.
    destruct (isInitializing s || isLive s); [exact IH|].
    destruct env as [[[]|] [|] [|] [|] [|]]; exact IH.
  - exact IH.
  - cbn. unfold level. apply sqrt_pos.
  - destruct (schedule_chunk_cases env (serverContent message ≫= inlineData) s)
      as [H|[(b & _ & H)|(e & _ & H)]].
    + rewrite (onmessage_eq _ _ _ _ H). cbn [snd]. unfold finish.
      repeat match goal with |- context [if ?b then _ else _] => destruct b end;
        unfold completed, cleared, silenced; cbn;
        repeat match goal with |- context [if ?b then _ else _] => destruct b end; exact IH.
    + rewrite (onmessage_eq _ _ _ _ H). cbn [snd]. unfold finish.
      repeat match goal with |- context [if ?b then _ else _] => destruct b end;
        unfold completed, cleared, silenced; cbn;
        repeat match goal with |- context [if ?b then _ else _] => destruct b end; exact IH.
    + rewrite (onmessage_raise _ _ _ _ _ H). exact IH.
  - unfold onended. unfold_M. cbn. now destruct (bool_decide _).
  - unfold onerror. rewrite stopLiveSession_eq. cbn. lra.
  - unfold onclose. rewrite stopLiveSession_eq. cbn. lra.
  - rewrite stopLiveSession_eq. cbn. lra.
Qed.

(** X3.  Whatever the animation time, every radius [render] hands to the canvas
    (the aura, the six blobs, the ring and the core) is positive when
    [audioLevel] is not negative, so neither [createRadialGradient] nor
    [arc] is given a negative radius; and the colour of every blob is
    defined. *)
Theorem visualizer_radii_positive (isSpeaking isListening : bool) (audioLevel time : R) :
  0 <= audioLevel ->
  0 < Visualizer.auraRadius isSpeaking isListening audioLevel time /\
  (forall i config, Visualizer.blobConfigs !! i = Some config ->
     0 < Visualizer.currentRadius isSpeaking isListening audioLevel time config i /\
     is_Some (Visualizer.blobColor isSpeaking isListening i)) /\
  0 < Visualizer.ringRadius isSpeaking isListening audioLevel /\
  0 < Visualizer.coreSize isSpeaking isListening audioLevel.
Proof.
  intros Ha.
  assert (Hs : 1 <= Visualizer.stateIntensity isSpeaking isListening)
    by (unfold Visualizer.stateIntensity; destruct isSpeaking, isListening; lra).
  assert (Hp : 0 <= Visualizer.audioPulse audioLevel) by (unfold Visualizer.audioPulse; lra).
  split; [|split; [|split]].
  - unfold Visualizer.auraRadius, Visualizer.breathe.
    pose proof (SIN_bound (time * 2)). nra.
  - intros i config Hi. split.
    + unfold Visualizer.currentRadius.
      pose proof (SIN_bound (time * 5 + INR i)).
      assert (90 <= Visualizer.r config).
      { apply list_elem_of_lookup_2 in Hi. unfold Visualizer.blobConfigs in Hi.
        repeat (apply elem_of_cons in Hi as [->|Hi]; [cbn; lra|]).
        now apply elem_of_nil in Hi. }
      destruct (isListening || isSpeaking); nra.
    + unfold Visualizer.blobColor. apply lookup_lt_is_Some.
      apply Nat.mod_upper_bound.
      unfold Visualizer.colors. now destruct isSpeaking, isListening.
  - unfold Visualizer.ringRadius. nra.
  - unfold Visualizer.coreSize. nra.
Qed.

(** The visualizer of a live, silent session while the microphone picks up
    a frame. *)
Lemma visualizer_radii_positive_witness :
  let s := after (Frame [1/2; -1/2]) open_session in
  0 < Visualizer.auraRadius (isSpeaking s) (isLive s && negb (isSpeaking s)) (audioLevel s) 0.
Proof.
  intros s.
  apply (visualizer_radii_positive (isSpeaking s) (isLive s && negb (isSpeaking s))
           (audioLevel s) 0).
  apply sqrt_pos.
Defined.

(** ** More on playback *)

Lemma run_delivers es chunks : forall s,
  Forall2 delivers es chunks -> is_Some (outputAudioContextRef s) ->
  nodes (run es s) = nodes s ++ laid_out (nextStartTimeRef s) chunks.
Proof.
  intros s Hes. revert s. induction Hes as [|e [c d] es chunks He Hes IH]; intros s Hctx.
  - cbn. now rewrite app_nil_r.
  - destruct (after_delivers e (c, d) s He Hctx) as (Hn & Ht & Hctx'). cbn [fst snd] in *.
    cbn [run fold_left]. fold (run es (after e s)).
    rewrite IH, Hn, Ht by assumption. now rewrite <- app_assoc.
Qed.

Lemma laid_out_no_overlap chunks : forall t i n1 n2,
  laid_out t chunks !! i = Some n1 -> laid_out t chunks !! S i = Some n2 ->
  when n1 + duration (buffer n1) <= when n2.
Proof.
  induction chunks as [|[c d] chunks IH]; intros t i n1 n2 H1 H2; [discriminate|].
  destruct i as [|i].
  - injection H1 as <-. destruct chunks as [|[c' d'] chunks]; [discriminate|].
    injection H2 as <-. cbn. apply Rmax_l.
  - exact (IH _ _ _ _ H1 H2).
Qed.

(** X4.  No overlap: whatever the clock reads when they arrive, chunks handled
    one after the other with no interruption in between are started so that
    each begins at or after the end of the one before it. *)
Theorem chunks_never_overlap (s : AppState) (es : list event) (chunks : list (R * R)) :
  is_Some (outputAudioContextRef s) -> Forall2 delivers es chunks ->
  forall i n1 n2,
    nodes (run es s) !! (length (nodes s) + i)%nat = Some n1 ->
    nodes (run es s) !! (length (nodes s) + S i)%nat = Some n2 ->
    when n1 + duration (buffer n1) <= when n2.
Proof.
  intros Hctx Hes i n1 n2. rewrite (run_delivers es chunks s Hes Hctx).
  rewrite !lookup_app_r by lia.
  replace (length (nodes s) + i - length (nodes s))%nat with i by lia.
  replace (length (nodes s) + S i - length (nodes s))%nat with (S i) by lia.
  apply laid_out_no_overlap.
Qed.

(** A second chunk that arrives late, at clock 3, after a one-second chunk
    scheduled at clock 0. *)
Lemma chunks_never_overlap_witness :
  let s' := run [Msg (at_clock 0 1) audio_chunk; Msg (at_clock 3 1) audio_chunk] open_session in
  exists n1 n2, nodes s' !! 0%nat = Some n1 /\ nodes s' !! 1%nat = Some n2 /\
    when n1 + duration (buffer n1) <= when n2.
Proof.
  intros s'. eexists _, _. split; [reflexivity|]. split; [reflexivity|].
  apply (chunks_never_overlap open_session
           [Msg (at_clock 0 1) audio_chunk; Msg (at_clock 3 1) audio_chunk]
           [(0, 1); (3, 1)]) with (i := 0%nat).
  - now eexists.
  - repeat (apply List.Forall2_cons; [apply delivers_audio_chunk|]). apply List.Forall2_nil.
  - reflexivity.
  - reflexivity.
Defined.

(** X5.  After an interruption the schedule restarts at the clock: the next
    chunk, arriving at a clock reading [c] that is not negative, is started
    at [c] exactly, whatever had been scheduled before. *)
Theorem chunk_after_interruption (env : MessageEnv) (message : LiveServerMessage)
    (sc : ServerContent) (e : event) (c d : R) (s : AppState) :
  serverContent message = Some sc -> interrupted sc = true -> decoded env ->
  is_Some (outputAudioContextRef s) -> delivers e (c, d) -> 0 <= c ->
  let s1 := after (Msg env message) s in
  exists n, nodes (after e s1) !! length (nodes s1) = Some n /\
    when n = c /\ nextStartTimeRef (after e s1) = c + d.
Proof.
  intros Hsc Hint Hdec Hctx He Hc s1.
  assert (Hctx1 : is_Some (outputAudioContextRef s1)).
  { subst s1. destruct (after_Msg_contexts env message s) as [_ ->]. exact Hctx. }
  assert (Hnext : nextStartTimeRef s1 = 0)
    by exact (after_interruption_clock env message sc s Hsc Hint Hdec).
  destruct (after_delivers e (c, d) s1 He Hctx1) as (Hn & Ht & _). cbn [fst snd] in *.
  rewrite Hnext, Rmax_right in Hn, Ht by exact Hc.
  eexists. rewrite Hn, Ht. split; [apply list_lookup_middle; reflexivity|]. now split.
Qed.

Lemma chunk_after_interruption_witness :
  let s := after (Msg (at_clock 0 10) audio_chunk) open_session in
  let s1 := after (Msg (at_clock 1 0) interruption) s in
  exists n, nodes (after (Msg (at_clock 2 1) audio_chunk) s1) !! 1%nat = Some n /\ when n = 2.
Proof.
  intros s s1.
  destruct (chunk_after_interruption (at_clock 1 0) interruption _
              (Msg (at_clock 2 1) audio_chunk) 2 1 s eq_refl eq_refl)
    as (n & Hn & Hw & _).
  - now eexists.
  - now eexists.
  - apply delivers_audio_chunk.
  - lra.
  - exists n. split; [exact Hn|exact Hw].
Defined.

Lemma after_Start_granted env s :
  isInitializing s || isLive s = false -> all_granted env = true ->
  exists sti sto stream session,
    after (Start env) s =
      with_sessionRef (Some session) (with_streamRef (Some stream)
        (with_outputAudioContextRef (Some {| sampleRate := 24000; state := sto |})
           (with_inputAudioContextRef (Some {| sampleRate := 16000; state := sti |})
              (with_isInitializing true s)))).
Proof.
  intros Hidle Hg. unfold after, handler, startLiveSession. unfold_M. cbn. rewrite Hidle.
  destruct env as [[[]|] [sti|] [sto|] [stream|] [session|]]; try discriminate.
  now exists sti, sto, stream, session.
Qed.

(** ** The schedule at the first chunk of a sequence *)



(** X6.  The schedule outlives the session: [stopLiveSession] and a new start
    leave [nextStartTimeRef] where the old session put it, so the first
    chunk of the new session is started at the later of the old schedule's
    end and the new clock reading, not at the clock. *)
Theorem schedule_survives_restart (s : AppState) (stop_env : StopEnv) (start_env : StartEnv)
    (e : event) (c d : R) :
  all_granted start_env = true -> delivers e (c, d) ->
  let s' := run [Stop stop_env; Start start_env; Opened; e] s in
  nodes s' = nodes s ++
    [{| buffer := {| duration := d |};
        when := Rmax (nextStartTimeRef s) c; stopped := None |}].
Proof.
  intros Hg He. cbn zeta. unfold run. cbn [fold_left].
  set (s1 := after (Stop stop_env) s).
  assert (H1 : nodes s1 = nodes s /\ nextStartTimeRef s1 = nextStartTimeRef s /\
               isInitializing s1 || isLive s1 = false).
  { subst s1. unfold after, handler. rewrite stopLiveSession_eq. cbn [snd]. unfold torn_down.
    repeat match goal with |- context [if ?b then _ else _] => destruct b end;
      now repeat split. }
  destruct H1 as (Hn1 & Ht1 & Hidle).
  destruct (after_Start_granted start_env s1 Hidle Hg) as (sti & sto & stream & session & E2).
  set (s3 := after Opened (after (Start start_env) s1)).
  assert (H3 : nodes s3 = nodes s /\ nextStartTimeRef s3 = nextStartTimeRef s /\
               is_Some (outputAudioContextRef s3)).
  { subst s3. rewrite E2. unfold after, handler, onopen. unfold_M. cbn.
    rewrite Hn1, Ht1. eauto. }
  destruct H3 as (Hn3 & Ht3 & Hctx3).
  destruct (after_delivers e (c, d) s3 He Hctx3) as (Hn & _). cbn [fst snd] in Hn.
  now rewrite Hn, Hn3, Ht3.
Qed.

(** A session whose last chunk ends at 10 is stopped and started again; the
    chunk that arrives when the new clock reads 1 is started at 10. *)
Lemma schedule_survives_restart_witness :
  let s := after (Msg (at_clock 0 10) audio_chunk) open_session in
  let s' := run [Stop closes; Start granted; Opened; Msg (at_clock 1 2) audio_chunk] s in
  exists n, nodes s' !! 1%nat = Some n /\ when n = 10.
Proof.
  intros s s'.
  pose proof (schedule_survives_restart s closes granted (Msg (at_clock 1 2) audio_chunk) 1 2
                eq_refl (delivers_audio_chunk 1 2)) as H.
  cbn zeta in H. subst s'. rewrite H. eexists. split; [reflexivity|].
  change (Rmax (Rmax 0 0 + 10) 1 = 10).
  rewrite (Rmax_left 0 0) by lra. rewrite Rmax_left by lra. lra.
Defined.

(** X7.  A chunk that does not decode: the handler throws after it has raised
    [isSpeaking] and brought [nextStartTimeRef] up to the clock, and nothing
    else of the message is handled: no source is created or registered, the
    transcript fragments are not appended, a turn-complete leaves the
    accumulators and the threads alone and an interrupted flag stops
    nothing. *)
Theorem decode_failure_drops_message (env : MessageEnv) (message : LiveServerMessage)
    (sc : ServerContent) (data : list N) (e : error) (s : AppState) :
  serverContent message = Some sc -> inlineData sc = Some data -> truthy data = true ->
  is_Some (outputAudioContextRef s) -> decodeAudioData env = Raise e ->
  let s' := after (Msg env message) s in
  onmessage env message s = (Raise e, s') /\
  isSpeaking s' = true /\
  nextStartTimeRef s' = Rmax (nextStartTimeRef s) (currentTime env) /\
  nodes s' = nodes s /\ sourcesRef s' = sourcesRef s /\
  currentInputTextRef s' = currentInputTextRef s /\
  currentOutputTextRef s' = currentOutputTextRef s /\
  threads s' = threads s /\ activeThreadId s' = activeThreadId s.
Proof.
  intros Hsc Hdata Htruthy [ctx Hctx] Hdec s'. subst s'. unfold after, handler.
  rewrite (onmessage_raise env message s e (undecoded (currentTime env) s)).
  - now repeat split.
  - rewrite Hsc. cbn. rewrite Hdata. now apply schedule_chunk_raise with ctx.
Qed.

Lemma decode_failure_drops_message_witness :
  let env := {| closure_activeThreadId := None; currentTime := 1;
                decodeAudioData := Raise DecodeError; Date_now := fun _ => 0%N |} in
  let message := {| serverContent := Some {|
       inlineData := Some (str "AAAA");
       inputTranscription := Some {| text := Some (str "hello") |};
       outputTranscription := None;
       turnComplete := true; interrupted := true |} |} in
  let s := after (Msg (at_clock 0 10) audio_chunk) open_session in
  let s' := after (Msg env message) s in
  currentInputTextRef s' = [] /\ sourcesRef s' = sourcesRef s /\ nodes s' = nodes s.
Proof.
  intros env message s s'.
  destruct (decode_failure_drops_message env message _ (str "AAAA") DecodeError s
              eq_refl eq_refl eq_refl) as (_ & _ & _ & Hn & Hr & Hi & _).
  - now eexists.
  - reflexivity.
  - split; [exact Hi|]. split; [exact Hr|exact Hn].
Defined.

(** ** The registry of sources *)

Lemma registry_live_same s s' :
  nodes s' = nodes s -> sourcesRef s' = sourcesRef s -> registry_live s -> registry_live s'.
Proof. intros Hn Hr H source. rewrite Hn, Hr. apply H. Qed.

Lemma registry_live_scheduled now b s : registry_live s -> registry_live (scheduled now b s).
Proof.
  intros H source. cbn. intros [->%elem_of_singleton|Hin]%elem_of_union.
  - eexists. split; [apply list_lookup_middle; reflexivity|reflexivity].
  - destruct (H source Hin) as (n & Hn & Hs). exists n. split; [|exact Hs].
    now apply lookup_app_l_Some.
Qed.

Lemma registry_live_finish env sc s1 : registry_live s1 -> registry_live (finish env sc s1).
Proof.
  intros H. destruct (default false (interrupted <$> sc)) eqn:Hi.
  - destruct (finish_interrupted env sc s1 Hi) as (s3 & _ & _ & ->).
    intros source Hin. cbn in Hin. now apply not_elem_of_empty in Hin.
  - destruct (finish_playback env sc s1 Hi) as (Hn & _ & Hr & _).
    exact (registry_live_same _ _ Hn Hr H).
Qed.

Lemma after_registry_live e s : registry_live s -> registry_live (after e s).
Proof.
  intros H. destruct e as [env| |inputData|env message|source|env|env|env];
    unfold after, handler.
  - apply (registry_live_same s); [| |exact H];
      unfold startLiveSession; unfold_M; cbn;
      (destruct (isInitializing s || isLive s); [reflexivity|]);
      destruct env as [[[]|] [|] [|] [|] [|]]; reflexivity.
  - exact H.
  - exact H.
  - destruct (schedule_chunk_cases env (serverContent message ≫= inlineData) s)
      as [E|[(b & _ & E)|(e & _ & E)]].
    + rewrite (onmessage_eq _ _ _ _ E). now apply registry_live_finish.
    + rewrite (onmessage_eq _ _ _ _ E). now apply registry_live_finish, registry_live_scheduled.
    + rewrite (onmessage_raise _ _ _ _ _ E). exact H.
  - unfold onended. unfold_M. cbn.
    assert (Hsub : registry_live (with_sourcesRef (sourcesRef s ∖ {[source]}) s)).
    { intros i Hi. cbn in Hi. apply elem_of_difference in Hi as [Hi _]. exact (H i Hi). }
    now destruct (bool_decide _).
  - unfold onerror. rewrite stopLiveSession_eq. apply (registry_live_same s); [| |exact H];
      unfold torn_down;
      repeat match goal with |- context [if ?b then _ else _] => destruct b end; reflexivity.
  - unfold onclose. rewrite stopLiveSession_eq. apply (registry_live_same s); [| |exact H];
      unfold torn_down;
      repeat match goal with |- context [if ?b then _ else _] => destruct b end; reflexivity.
  - rewrite stopLiveSession_eq. apply (registry_live_same s); [| |exact H];
      unfold torn_down;
      repeat match goal with |- context [if ?b then _ else _] => destruct b end; reflexivity.
Qed.

Lemma reachable_open_session : reachable open_session.
Proof.
  unfold open_session, run. cbn [fold_left].
  apply reachable_after; [apply reachable_after; [apply reachable_initial|]|exact I].
  split; discriminate.
Qed.

(** X8.  In every state the session reaches, each source in [sourcesRef] is a
    node that was created and started and has not been stopped: the registry
    never holds a stale or an unknown source. *)
Theorem reachable_registry_live (s : AppState) : reachable s -> registry_live s.
Proof.
  induction 1 as [saved|e s _ IH _].
  - intros source Hin. now apply not_elem_of_empty in Hin.
  - now apply after_registry_live.
Qed.

Lemma reachable_registry_live_witness :
  let s := after (Msg (at_clock 0 1) audio_chunk) open_session in
  exists n, nodes s !! 0%nat = Some n /\ stopped n = None.
Proof.
  intros s. apply (reachable_registry_live s).
  - apply reachable_after; [apply reachable_open_session|exact I].
  - change (0%nat ∈ ({[0%nat]} ∪ ∅ : gset nat)).
    apply elem_of_union_l. now apply elem_of_singleton.
Defined.

(** X9.  Add and remove pair up: when a chunk has been scheduled and its source
    then ends, the registry is what it was before the chunk, and
    [isSpeaking] is cleared exactly when no other source is registered. *)
Theorem schedule_then_ended_restores_registry (s : AppState) (e : event) (cd : R * R) :
  registry_live s -> is_Some (outputAudioContextRef s) -> delivers e cd ->
  let s2 := after (Ended (length (nodes s))) (after e s) in
  sourcesRef s2 = sourcesRef s /\
  isSpeaking s2 = negb (bool_decide (size (sourcesRef s) = 0%nat)).
Proof.
  intros Hlive [ctx Hctx] (env & sc & data & -> & Hdata & Htruthy & Hint & Hc & Hd).
  assert (Hfresh : length (nodes s) ∉ sourcesRef s).
  { intros Hin. destruct (Hlive _ Hin) as (n & Hn & _).
    apply lookup_lt_Some in Hn. lia. }
  cbn zeta. set (s1 := after (Msg env {| serverContent := Some sc |}) s).
  assert (E1 : s1 = finish env (Some sc) (scheduled (currentTime env) {| duration := cd.2 |} s)).
  { subst s1. unfold after, handler.
    erewrite onmessage_eq; [reflexivity|].
    cbn. rewrite Hdata. apply schedule_chunk_ok with ctx; [exact Hctx|exact Htruthy|exact Hd]. }
  destruct (finish_playback env (Some sc) (scheduled (currentTime env) {| duration := cd.2 |} s))
    as (_ & _ & Hr & _); [exact Hint|].
  rewrite <- E1 in Hr. cbn in Hr.
  assert (Hsp : isSpeaking s1 = true).
  { rewrite E1. unfold finish.
    change (default false (interrupted <$> Some sc)) with (interrupted sc).
    change (default false (turnComplete <$> Some sc)) with (turnComplete sc).
    rewrite Hint. destruct (turnComplete sc); [|reflexivity].
    unfold completed, cleared.
    repeat match goal with |- context [if ?b then _ else _] => destruct b end; reflexivity. }
  assert (Hdiff : sourcesRef s1 ∖ {[length (nodes s)]} = sourcesRef s).
  { rewrite Hr. apply set_eq. intros i.
    rewrite elem_of_difference, elem_of_union, !elem_of_singleton.
    split; [intros [[->|Hi] Hne]; [contradiction|exact Hi]|].
    intros Hi. split; [now right|]. intros ->. contradiction. }
  clearbody s1. unfold after, handler, onended. unfold_M. cbn. rewrite Hdiff.
  destruct (bool_decide (size (sourcesRef s) = 0%nat)); cbn; [now split|].
  split; [reflexivity|exact Hsp].
Qed.

Lemma schedule_then_ended_restores_registry_witness :
  let s2 := after (Ended 0) (after (Msg (at_clock 0 1) audio_chunk) open_session) in
  sourcesRef s2 = ∅ /\ isSpeaking s2 = false.
Proof.
  apply (schedule_then_ended_restores_registry open_session _ (0, 1)).
  - intros source Hin. now apply not_elem_of_empty in Hin.
  - now eexists.
  - apply delivers_audio_chunk.
Defined.

(** ** Starting *)

(** X10.  A start that fails before the connection is attempted: when the
    SDK client, an audio context or the microphone cannot be had,
    [startLiveSession] called in the idle state does not throw and leaves
    both flags false, and it stores no session and no stream; but each audio
    context made before the failing step stays in its ref, neither closed nor
    released. *)
Theorem start_fails_before_connect (env : StartEnv) (s : AppState) :
  isInitializing s || isLive s = false ->
  reaches_connect env = false ->
  let s' := after (Start env) s in
  startLiveSession env s = (Ok tt, s') /\
  isInitializing s' = false /\ isLive s' = false /\
  sessionRef s' = sessionRef s /\ streamRef s' = streamRef s /\
  (forall sti,
     new_GoogleGenAI env = Ok tt -> new_AudioContext_input env = Ok sti ->
     inputAudioContextRef s' = Some {| sampleRate := 16000; state := sti |}) /\
  (forall sti sto,
     new_GoogleGenAI env = Ok tt -> new_AudioContext_input env = Ok sti ->
     new_AudioContext_output env = Ok sto ->
     outputAudioContextRef s' = Some {| sampleRate := 24000; state := sto |}).
Proof.
  intros Hidle. apply orb_false_elim in Hidle as [Hini Hlive].
  cbn zeta. unfold after, handler, startLiveSession. unfold_M. cbn. rewrite Hini, Hlive. cbn.
  destruct env as [[[]|] [sti|] [sto|] [stream|] conn]; cbn; intros Hr; try discriminate;
    (split; [reflexivity|]); (split; [reflexivity|]); (split; [exact Hlive|]);
    (split; [reflexivity|]); (split; [reflexivity|]);
    split; intros; simplify_eq; reflexivity.
Qed.

(** The microphone is denied at mount: the start returns, idle, with both
    contexts held. *)
Lemma start_fails_before_connect_witness :
  let s' := after (Start microphone_denied) (initial_state []) in
  isInitializing s' = false /\ isLive s' = false /\
  sessionRef s' = None /\ streamRef s' = None /\
  inputAudioContextRef s' = Some {| sampleRate := 16000; state := running |} /\
  outputAudioContextRef s' = Some {| sampleRate := 24000; state := running |}.
Proof.
  destruct (start_fails_before_connect microphone_denied (initial_state []) eq_refl eq_refl)
    as (_ & Hini & Hlive & Hsession & Hstream & Hin & Hout).
  cbn zeta. split; [exact Hini|]. split; [exact Hlive|].
  split; [exact Hsession|]. split; [exact Hstream|]. split.
  - exact (Hin running eq_refl eq_refl).
  - exact (Hout running running eq_refl eq_refl eq_refl).
Defined.

(** ** More on turns *)

Lemma trimStart_id s :
  (forall c, head s = Some c -> is_white_space c = false) -> trimStart s = s.
Proof.
  destruct s as [|c s]; [reflexivity|]. intros H. cbn [trimStart].
  now rewrite (H c eq_refl).
Qed.

Lemma trimStart_snoc s c :
  is_white_space c = false -> trimStart (s ++ [c]) = trimStart s ++ [c].
Proof.
  intros Hc. induction s as [|c0 s IH]; cbn [trimStart app]; [now rewrite Hc|].
  now destruct (is_white_space c0).
Qed.

Lemma last_rev (s : list N) : last (rev s) = head s.
Proof. destruct s as [|c s]; [reflexivity|]. cbn [rev]. apply last_snoc. Qed.

Lemma head_rev (s : list N) : head (rev s) = last s.
Proof. rewrite <- (rev_involutive s) at 2. symmetry. apply last_rev. Qed.

Lemma trimEnd_id s :
  (forall c, last s = Some c -> is_white_space c = false) -> trimEnd s = s.
Proof.
  intros H. unfold trimEnd. rewrite trimStart_id; [apply rev_involutive|].
  intros c. rewrite head_rev. apply H.
Qed.

Lemma trimEnd_last s c : last (trimEnd s) = Some c -> is_white_space c = false.
Proof.
  unfold trimEnd. rewrite last_rev.
  destruct (trimStart (rev s)) as [|c0 t] eqn:E; [discriminate|].
  intros [= <-]. exact (trimStart_head _ _ _ E).
Qed.

Lemma trimEnd_head s c s' : s = c :: s' -> is_white_space c = false ->
  head (trimEnd s) = Some c.
Proof.
  intros -> Hc. unfold trimEnd. cbn [rev]. rewrite (trimStart_snoc _ _ Hc).
  now rewrite rev_app_distr.
Qed.

Lemma trim_head s c : head (trim s) = Some c -> is_white_space c = false.
Proof.
  unfold trim. destruct (trimStart s) as [|c0 t] eqn:E; [discriminate|].
  rewrite (trimEnd_head _ c0 t eq_refl (trimStart_head _ _ _ E)).
  intros [= <-]. exact (trimStart_head _ _ _ E).
Qed.

Lemma trim_last s c : last (trim s) = Some c -> is_white_space c = false.
Proof. apply trimEnd_last. Qed.

Lemma trim_idempotent s : trim (trim s) = trim s.
Proof.
  unfold trim at 1. rewrite (trimStart_id (trim s)) by apply trim_head.
  apply trimEnd_id, trim_last.
Qed.

(** X12.  A completed turn only ever emits messages that have some text, with no
    white space at either end: for whatever the accumulators hold, each
    message of [newMsgs] has a non-empty text that begins and ends with a
    character that is not white space (so trimming it again changes
    nothing), and is not marked as typing. *)
Theorem turn_messages_are_trimmed (env : MessageEnv) (input output : list N) (m : Message.t) :
  m ∈ newMsgs env (trim input) (trim output) ->
  Message.text m <> [] /\
  (forall c, head (Message.text m) = Some c -> is_white_space c = false) /\
  (forall c, last (Message.text m) = Some c -> is_white_space c = false) /\
  trim (Message.text m) = Message.text m /\
  Message.isTyping m = None.
Proof.
  unfold newMsgs. intros Hm. apply elem_of_app in Hm.
  assert (H : exists x, Message.text m = trim x /\ truthy (trim x) = true /\
                        Message.isTyping m = None).
  { destruct Hm as [Hm|Hm].
    - destruct (truthy (trim input)) eqn:E; [|now apply elem_of_nil in Hm].
      apply list_elem_of_singleton in Hm as ->. now exists input.
    - destruct (truthy (trim output)) eqn:E; [|now apply elem_of_nil in Hm].
      apply list_elem_of_singleton in Hm as ->. now exists output. }
  destruct H as (x & -> & Hx & Ht).
  split; [intros E; now rewrite E in Hx|].
  split; [apply trim_head|]. split; [apply trim_last|].
  split; [apply trim_idempotent|exact Ht].
Qed.

Lemma turn_messages_are_trimmed_witness :
  let m := Message.mk (str "u-" ++ toString 5) user (str "Hello world") 6 None in
  Message.text m <> [] /\ trim (Message.text m) = Message.text m.
Proof.
  intros m.
  destruct (turn_messages_are_trimmed
              {| closure_activeThreadId := None; currentTime := 0;
                 decodeAudioData := Raise DecodeError;
                 Date_now := fun site => match site with UserId => 5 | _ => 6 end%N |}
              (str "  Hello world ") [] m) as (H1 & _ & _ & H2 & _).
  - apply list_elem_of_singleton. reflexivity.
  - split; [exact H1|exact H2].
Defined.

(** The threads, the selection and the accumulators after a message that
    completes a turn. *)
Lemma finish_turn env sc s1 :
  turnComplete sc = true ->
  let u := trim (currentInputTextRef s1 ++ fragment (inputTranscription sc)) in
  let a := trim (currentOutputTextRef s1 ++ fragment (outputTranscription sc)) in
  let s' := finish env (Some sc) s1 in
  threads s' =
    (if truthy u || truthy a
     then append_to_thread env (currentId env) (newMsgs env u a)
            (if truthy_opt (closure_activeThreadId env) then threads s1
             else newT env :: threads s1)
     else threads s1) /\
  activeThreadId s' =
    (if truthy u || truthy a
     then if truthy_opt (closure_activeThreadId env) then activeThreadId s1
          else Some (currentId env)
     else activeThreadId s1) /\
  currentInputTextRef s' = [] /\ currentOutputTextRef s' = [].
Proof.
  intros Htc. cbn zeta. unfold finish.
  change (default false (interrupted <$> Some sc)) with (interrupted sc).
  change (default false (turnComplete <$> Some sc)) with (turnComplete sc).
  change (Some sc ≫= inputTranscription) with (inputTranscription sc).
  change (Some sc ≫= outputTranscription) with (outputTranscription sc).
  rewrite Htc. unfold completed, cleared.
  cbn [currentInputTextRef currentOutputTextRef
       with_currentInputTextRef with_currentOutputTextRef].
  destruct (truthy _ || truthy _), (truthy_opt (closure_activeThreadId env)),
    (interrupted sc); now cbn.
Qed.

Lemma after_turn env message sc s :
  serverContent message = Some sc -> turnComplete sc = true -> decoded env ->
  let u := trim (currentInputTextRef s ++ fragment (inputTranscription sc)) in
  let a := trim (currentOutputTextRef s ++ fragment (outputTranscription sc)) in
  let s' := after (Msg env message) s in
  threads s' =
    (if truthy u || truthy a
     then append_to_thread env (currentId env) (newMsgs env u a)
            (if truthy_opt (closure_activeThreadId env) then threads s
             else newT env :: threads s)
     else threads s) /\
  activeThreadId s' =
    (if truthy u || truthy a
     then if truthy_opt (closure_activeThreadId env) then activeThreadId s
          else Some (currentId env)
     else activeThreadId s) /\
  currentInputTextRef s' = [] /\ currentOutputTextRef s' = [].
Proof.
  intros Hsc Htc Hdec. cbn zeta. unfold after, handler.
  destruct (schedule_chunk_decoded env (serverContent message ≫= inlineData) s Hdec)
    as [H|(b & H)]; rewrite (onmessage_eq _ _ _ _ H), Hsc; cbn [snd].
  - exact (finish_turn env sc s Htc).
  - exact (finish_turn env sc (scheduled (currentTime env) b s) Htc).
Qed.

(** X13.  The closure of the session keeps the selection it was created with, so
    in a session started with no thread selected every turn that has text
    opens a thread of its own: the list grows by one thread, "Voice
    Interaction", which becomes the selected one and holds exactly the
    messages of this turn. *)
Theorem turn_opens_new_thread (env : MessageEnv) (message : LiveServerMessage)
    (sc : ServerContent) (s : AppState) :
  serverContent message = Some sc -> turnComplete sc = true -> decoded env ->
  truthy_opt (closure_activeThreadId env) = false ->
  let u := trim (currentInputTextRef s ++ fragment (inputTranscription sc)) in
  let a := trim (currentOutputTextRef s ++ fragment (outputTranscription sc)) in
  truthy u || truthy a = true ->
  let s' := after (Msg env message) s in
  length (threads s') = S (length (threads s)) /\
  activeThread s' =
    Some (ChatThread.mk (currentId env) (str "Voice Interaction") (newMsgs env u a)
            (Date_now env AppendUpdatedAt)) /\
  activeMessages s' = newMsgs env u a.
Proof.
  intros Hsc Htc Hdec Hcl u a Hua s'.
  destruct (after_turn env message sc s Hsc Htc Hdec) as (Ht & Ha & _).
  fold u a s' in Ht, Ha. rewrite Hua, Hcl in Ht, Ha.
  assert (Hact : activeThread s' =
    Some (ChatThread.mk (currentId env) (str "Voice Interaction") (newMsgs env u a)
            (Date_now env AppendUpdatedAt))).
  { unfold activeThread. rewrite Ha, Ht. unfold append_to_thread. cbn [map newT ChatThread.id].
    rewrite decide_True by reflexivity. cbn [find ChatThread.id].
    now rewrite bool_decide_eq_true_2 by reflexivity. }
  split; [|split; [exact Hact|]].
  - rewrite Ht. unfold append_to_thread. now rewrite length_map.
  - unfold activeMessages. now rewrite Hact.
Qed.

(** Two turns of one session, each with text: two threads. *)
Lemma turn_opens_new_thread_witness :
  let turn := {| serverContent := Some {|
       inlineData := None; inputTranscription := Some {| text := Some (str "hi") |};
       outputTranscription := None; turnComplete := true; interrupted := false |} |} in
  let s1 := after (Msg (at_clock 0 0) turn) open_session in
  let s2 := after (Msg (at_clock 0 0) turn) s1 in
  length (threads s1) = 1%nat /\ length (threads s2) = 2%nat.
Proof.
  intros turn s1 s2.
  destruct (turn_opens_new_thread (at_clock 0 0) turn _ open_session eq_refl eq_refl)
    as (H1 & _); [now eexists|reflexivity|reflexivity|].
  destruct (turn_opens_new_thread (at_clock 0 0) turn _ s1 eq_refl eq_refl)
    as (H2 & _); [now eexists|reflexivity|reflexivity|].
  fold s1 in H1. fold s2 in H2. rewrite H2, H1. now split.
Defined.

Lemma append_to_thread_absent env cid msgs (l : list ChatThread.t) :
  Forall (fun t => ChatThread.id t <> cid) l -> append_to_thread env cid msgs l = l.
Proof.
  unfold append_to_thread. induction 1 as [|t l Ht _ IH]; [reflexivity|].
  cbn [map]. rewrite IH. now rewrite decide_False by exact Ht.
Qed.

Lemma deleteThread_eq id s :
  deleteThread id s =
    (Ok tt,
     if bool_decide (activeThreadId s = Some id)
     then with_activeThreadId None
            (with_threads (filter (fun t => ChatThread.id t <> id)) s)
     else with_threads (filter (fun t => ChatThread.id t <> id)) s).
Proof. unfold deleteThread. unfold_M. cbn. now destruct (bool_decide _). Qed.

Lemma threads_deleteThread id s :
  threads (deleteThread id s).2 = filter (fun t => ChatThread.id t <> id) (threads s).
Proof. rewrite deleteThread_eq. cbn [snd]. now destruct (bool_decide _). Qed.

(** X14.  A turn is lost when its thread is gone: in a session whose closure holds
    the thread [cid], once that thread has been deleted a completed turn,
    whatever was said, changes neither the threads nor the selection and
    empties the accumulators; its messages are kept nowhere. *)
Theorem turn_after_delete_is_lost (env : MessageEnv) (message : LiveServerMessage)
    (sc : ServerContent) (cid : list N) (s0 : AppState) :
  closure_activeThreadId env = Some cid -> truthy cid = true ->
  serverContent message = Some sc -> turnComplete sc = true -> decoded env ->
  let s := (deleteThread cid s0).2 in
  let s' := after (Msg env message) s in
  threads s' = threads s /\ activeThreadId s' = activeThreadId s /\
  currentInputTextRef s' = [] /\ currentOutputTextRef s' = [].
Proof.
  intros Hcl Hcid Hsc Htc Hdec s s'.
  destruct (after_turn env message sc s Hsc Htc Hdec) as (Ht & Ha & Hi & Ho).
  fold s' in Ht, Ha, Hi, Ho.
  assert (Htr : truthy_opt (closure_activeThreadId env) = true) by now rewrite Hcl.
  rewrite Htr in Ht, Ha.
  split; [|split; [|split; [exact Hi|exact Ho]]].
  - rewrite Ht. destruct (truthy _ || truthy _); [|reflexivity].
    apply append_to_thread_absent. unfold currentId. rewrite Htr, Hcl. cbn [default].
    subst s. rewrite threads_deleteThread. apply Forall_forall.
    now intros t [Ht' _]%list_elem_of_filter.
  - rewrite Ha. now destruct (truthy _ || truthy _).
Qed.

Lemma turn_after_delete_is_lost_witness :
  let env := {| closure_activeThreadId := Some (str "7"); currentTime := 0;
                decodeAudioData := Ok {| duration := 0 |}; Date_now := fun _ => 9%N |} in
  let turn := {| serverContent := Some {|
       inlineData := None; inputTranscription := Some {| text := Some (str "hi") |};
       outputTranscription := None; turnComplete := true; interrupted := false |} |} in
  let s0 := initial_state [ChatThread.mk (str "7") (str "A") [] 1%N;
                           ChatThread.mk (str "8") (str "B") [] 2%N] in
  let s := (deleteThread (str "7") s0).2 in
  threads (after (Msg env turn) s) = threads s.
Proof.
  intros env turn s0 s.
  destruct (turn_after_delete_is_lost env turn _ (str "7") s0 eq_refl eq_refl eq_refl eq_refl)
    as (H & _); [now eexists|exact H].
Defined.

(** ** Conversation threads *)

Lemma by_id_cons i t l :
  by_id i (t :: l) = if decide (ChatThread.id t = i) then Some t else by_id i l.
Proof.
  unfold by_id. cbn [find]. destruct (decide (ChatThread.id t = i)) as [E|E].
  - now rewrite bool_decide_eq_true_2.
  - now rewrite bool_decide_eq_false_2.
Qed.

Lemma by_id_map i (f : ChatThread.t -> ChatThread.t) l :
  (forall t, ChatThread.id (f t) = ChatThread.id t) ->
  by_id i (map f l) = f <$> by_id i l.
Proof.
  intros Hf. induction l as [|t l IH]; [reflexivity|].
  cbn [map]. rewrite !by_id_cons, Hf, IH. now destruct (decide _).
Qed.

Lemma by_id_filter i d l :
  i <> d -> by_id i (filter (fun t => ChatThread.id t <> d) l) = by_id i l.
Proof.
  intros Hne. induction l as [|t l IH]; [reflexivity|].
  rewrite filter_cons. destruct (decide (ChatThread.id t <> d)) as [E|E].
  - now rewrite !by_id_cons, IH.
  - rewrite by_id_cons, IH. rewrite decide_False; [reflexivity|].
    intros Hi. apply E. congruence.
Qed.

Lemma by_id_elem i t l : t ∈ l -> ChatThread.id t = i -> is_Some (by_id i l).
Proof.
  intros Hin Hi. induction l as [|t0 l IH]; [now apply elem_of_nil in Hin|].
  rewrite by_id_cons. destruct (decide _); [now eexists|].
  apply elem_of_cons in Hin as [->|Hin]; [contradiction|now apply IH].
Qed.

Lemma by_id_absent i l : Forall (fun t => ChatThread.id t <> i) l -> by_id i l = None.
Proof.
  induction 1 as [|t l Ht _ IH]; [reflexivity|].
  now rewrite by_id_cons, decide_False.
Qed.

Lemma activeThread_eq s :
  activeThread s = match activeThreadId s with Some i => by_id i (threads s) | None => None end.
Proof. reflexivity. Qed.

Lemma filter_absent d (l : list ChatThread.t) :
  Forall (fun t => ChatThread.id t <> d) l -> filter (fun t => ChatThread.id t <> d) l = l.
Proof.
  induction 1 as [|t l Ht _ IH]; [reflexivity|].
  now rewrite filter_cons_True, IH.
Qed.

(** X15.  A new chat is selected and empty, and deleting it again gives back the
    list of threads as it was, with nothing selected, provided no older
    thread carries the id the new one was given (the millisecond it was
    created in); an older thread with that id would be deleted with it. *)
Theorem create_then_delete (now : DateSite -> N) (s : AppState) :
  Forall (fun t => ChatThread.id t <> toString (now ThreadId)) (threads s) ->
  let s1 := (createNewChat now s).2 in
  let s2 := (deleteThread (toString (now ThreadId)) s1).2 in
  activeThread s1 =
    Some (ChatThread.mk (toString (now ThreadId)) (str "New Conversation") []
            (now ThreadUpdatedAt)) /\
  activeMessages s1 = [] /\
  threads s2 = threads s /\ activeThreadId s2 = None.
Proof.
  intros Hfresh s1 s2.
  assert (E1 : s1 = with_activeThreadId (Some (toString (now ThreadId)))
                 (with_threads (cons (ChatThread.mk (toString (now ThreadId))
                    (str "New Conversation") [] (now ThreadUpdatedAt))) s)) by reflexivity.
  assert (Hact : activeThread s1 =
    Some (ChatThread.mk (toString (now ThreadId)) (str "New Conversation") []
            (now ThreadUpdatedAt))).
  { rewrite activeThread_eq, E1. cbn [activeThreadId threads with_activeThreadId with_threads].
    rewrite by_id_cons. now rewrite decide_True by reflexivity. }
  split; [exact Hact|]. split; [unfold activeMessages; now rewrite Hact|].
  subst s2. rewrite deleteThread_eq, E1.
  cbn [snd activeThreadId with_activeThreadId with_threads].
  rewrite bool_decide_eq_true_2 by reflexivity.
  cbn [threads activeThreadId with_activeThreadId with_threads].
  rewrite filter_cons_False by (cbn; intros H; now apply H).
  split; [now apply filter_absent|reflexivity].
Qed.

Lemma create_then_delete_witness :
  let now := fun _ : DateSite => 1700000000000%N in
  let s := initial_state [ChatThread.mk (str "7") (str "A") [] 1%N] in
  threads (deleteThread (toString 1700000000000) (createNewChat now s).2).2 = threads s.
Proof.
  intros now s.
  destruct (create_then_delete now s) as (_ & _ & H & _); [|exact H].
  apply List.Forall_cons; [|apply List.Forall_nil]. cbn. discriminate.
Defined.

(** X16.  [deleteThread id] leaves no thread with that id; when the selected
    thread is another one, the selection and the thread it shows are
    untouched, and when it is the deleted one, nothing is selected after and
    no message is on display. *)
Theorem delete_thread_and_selection (id : list N) (s : AppState) :
  let s' := (deleteThread id s).2 in
  Forall (fun t => ChatThread.id t <> id) (threads s') /\
  (activeThreadId s <> Some id ->
     activeThreadId s' = activeThreadId s /\ activeThread s' = activeThread s) /\
  (activeThreadId s = Some id -> activeThreadId s' = None /\ activeMessages s' = []).
Proof.
  cbn zeta. split; [|split].
  - rewrite threads_deleteThread. apply Forall_forall.
    now intros t [Ht _]%list_elem_of_filter.
  - intros Hne. rewrite deleteThread_eq. cbn [snd].
    rewrite bool_decide_eq_false_2 by exact Hne.
    split; [reflexivity|]. rewrite !activeThread_eq.
    cbn [activeThreadId threads with_threads].
    destruct (activeThreadId s) as [i|]; [|reflexivity].
    apply by_id_filter. congruence.
  - intros Heq. rewrite deleteThread_eq. cbn [snd].
    rewrite bool_decide_eq_true_2 by exact Heq. now split.
Qed.

Lemma delete_thread_and_selection_witness :
  let s := with_activeThreadId (Some (str "8"))
             (initial_state [ChatThread.mk (str "7") (str "A") [] 1%N;
                             ChatThread.mk (str "8") (str "B") [] 2%N]) in
  activeThread (deleteThread (str "7") s).2 = Some (ChatThread.mk (str "8") (str "B") [] 2%N).
Proof.
  intros s.
  destruct (delete_thread_and_selection (str "7") s) as (_ & H & _).
  destruct H as [_ H]; [discriminate|]. rewrite H. reflexivity.
Defined.

(** ** The selection *)

Lemma selection_same s s' :
  threads s' = threads s -> activeThreadId s' = activeThreadId s ->
  selection_exists s -> selection_exists s'.
Proof.
  unfold selection_exists. now intros -> ->.
Qed.

Lemma selection_map (f : ChatThread.t -> ChatThread.t) s s' :
  (forall t, ChatThread.id (f t) = ChatThread.id t) ->
  threads s' = map f (threads s) -> activeThreadId s' = activeThreadId s ->
  selection_exists s -> selection_exists s'.
Proof.
  unfold selection_exists. intros Hf -> -> H i Hi.
  rewrite (by_id_map i f _ Hf). destruct (H i Hi) as [t ->]. now eexists.
Qed.

Lemma selection_new (f : ChatThread.t -> ChatThread.t) t l s' :
  (forall t, ChatThread.id (f t) = ChatThread.id t) ->
  threads s' = map f (t :: l) -> activeThreadId s' = Some (ChatThread.id t) ->
  selection_exists s'.
Proof.
  unfold selection_exists. intros Hf -> -> i [= <-].
  cbn [map]. rewrite by_id_cons, Hf. rewrite decide_True by reflexivity. now eexists.
Qed.

Lemma append_to_thread_ids env cid msgs :
  forall t, ChatThread.id
    (if decide (ChatThread.id t = cid)
     then ChatThread.mk (ChatThread.id t) (ChatThread.title t)
            (ChatThread.messages t ++ msgs) (Date_now env AppendUpdatedAt)
     else t) = ChatThread.id t.
Proof. intros t. now destruct (decide _). Qed.

Lemma selection_finish env sc s1 : selection_exists s1 -> selection_exists (finish env sc s1).
Proof.
  intros H. unfold finish.
  set (s2 := with_currentOutputTextRef _ _).
  assert (H2 : selection_exists s2) by exact (selection_same s1 s2 eq_refl eq_refl H).
  clearbody s2.
  assert (H3 : selection_exists
                 (if default false (turnComplete <$> sc) then completed env s2 else s2)).
  { destruct (default false (turnComplete <$> sc)); [|exact H2].
    unfold completed, cleared.
    destruct (truthy _ || truthy _); [|exact (selection_same s2 _ eq_refl eq_refl H2)].
    destruct (truthy_opt (closure_activeThreadId env)).
    - eapply (selection_map _ s2); [apply append_to_thread_ids|reflexivity|reflexivity|exact H2].
    - eapply (selection_new _ (newT env) (threads s2));
        [apply append_to_thread_ids|reflexivity|reflexivity]. }
  destruct (default false (interrupted <$> sc)); [|exact H3].
  exact (selection_same _ _ eq_refl eq_refl H3).
Qed.

Lemma after_selection e s : selection_exists s -> selection_exists (after e s).
Proof.
  intros H. destruct e as [env| |inputData|env message|source|env|env|env];
    unfold after, handler.
  - apply (selection_same s); [| |exact H];
      unfold startLiveSession; unfold_M; cbn;
      (destruct (isInitializing s || isLive s); [reflexivity|]);
      destruct env as [[[]|] [|] [|] [|] [|]]; reflexivity.
  - exact (selection_same s _ eq_refl eq_refl H).
  - exact (selection_same s _ eq_refl eq_refl H).
  - destruct (schedule_chunk_cases env (serverContent message ≫= inlineData) s)
      as [E|[(b & _ & E)|(e & _ & E)]].
    + rewrite (onmessage_eq _ _ _ _ E). now apply selection_finish.
    + rewrite (onmessage_eq _ _ _ _ E). apply selection_finish.
      exact (selection_same s _ eq_refl eq_refl H).
    + rewrite (onmessage_raise _ _ _ _ _ E). exact (selection_same s _ eq_refl eq_refl H).
  - unfold onended. unfold_M. cbn.
    destruct (bool_decide _); exact (selection_same s _ eq_refl eq_refl H).
  - unfold onerror. rewrite stopLiveSession_eq. apply (selection_same s); [| |exact H];
      unfold torn_down;
      repeat match goal with |- context [if ?b then _ else _] => destruct b end; reflexivity.
  - unfold onclose. rewrite stopLiveSession_eq. apply (selection_same s); [| |exact H];
      unfold torn_down;
      repeat match goal with |- context [if ?b then _ else _] => destruct b end; reflexivity.
  - rewrite stopLiveSession_eq. apply (selection_same s); [| |exact H];
      unfold torn_down;
      repeat match goal with |- context [if ?b then _ else _] => destruct b end; reflexivity.
Qed.

Lemma handleSendText_settle_eq env p s :
  handleSendText_settle env p s = (Ok tt, with_threads (map (settle_thread env p)) s).
Proof.
  unfold handleSendText_settle, settle_thread, succeeded, reply_text. unfold_M.
  destruct (send_GoogleGenAI env) as [[]|e], (generateContent env) as [txt|e']; cbn;
    do 3 f_equal; apply List.map_ext; intros t; now destruct (decide _).
Qed.

Lemma settle_thread_id env p t : ChatThread.id (settle_thread env p t) = ChatThread.id t.
Proof. unfold settle_thread. now destruct (decide _). Qed.

Lemma append_exchange_id cid um pm t :
  ChatThread.id
    (if decide (ChatThread.id t = cid)
     then ChatThread.mk (ChatThread.id t) (ChatThread.title t)
            (ChatThread.messages t ++ [um; pm]) (ChatThread.updatedAt t)
     else t) = ChatThread.id t.
Proof. now destruct (decide _). Qed.

Lemma ui_after_selection e s :
  ui_well_formed e s -> selection_exists s -> selection_exists (ui_after e s).
Proof.
  destruct e as [e|now|id|t|now txt|env p]; intros Hwf H; unfold ui_after.
  - now apply after_selection.
  - eapply (selection_new (fun t => t) _ (threads s)); [reflexivity| |reflexivity].
    cbn. now rewrite map_id.
  - rewrite deleteThread_eq. cbn [snd].
    destruct (bool_decide (activeThreadId s = Some id)) eqn:E.
    + intros i Hi. discriminate Hi.
    + apply bool_decide_eq_false in E. intros i Hi.
      cbn [activeThreadId threads with_threads] in *.
      rewrite by_id_filter; [exact (H i Hi)|congruence].
  - intros i [= <-]. now apply by_id_elem with t.
  - unfold handleSendText_begin. cbn [component inputText].
    destruct (negb (truthy (trim txt))); [exact H|]. cbn [fst component].
    destruct (truthy_opt (activeThreadId s)) eqn:E.
    + eapply (selection_map _ s); [apply append_exchange_id|reflexivity|reflexivity|exact H].
    + eapply (selection_new _ _ (threads s)); [apply append_exchange_id|reflexivity|reflexivity].
  - rewrite handleSendText_settle_eq.
    eapply (selection_map _ s); [apply settle_thread_id|reflexivity|reflexivity|exact H].
Qed.

(** X17.  Whatever the user and the server do, the selection never dangles: a
    thread id held in [activeThreadId] is the id of a thread of the list,
    so [activeThread] is found. *)
Theorem selection_never_dangles (s : AppState) : ui_reachable s -> selection_exists s.
Proof.
  induction 1 as [saved|e s _ IH Hwf].
  - intros i Hi. discriminate Hi.
  - now apply ui_after_selection.
Qed.

Lemma selection_never_dangles_witness :
  let now := fun _ : DateSite => 1700000000000%N in
  let s := ui_after (Delete (str "7"))
             (ui_after (NewChat now)
                (initial_state [ChatThread.mk (str "7") (str "A") [] 1%N])) in
  activeThreadId s = Some (toString 1700000000000) /\ is_Some (activeThread s).
Proof.
  intros now s. split; [reflexivity|].
  apply (selection_never_dangles s) with (i := toString 1700000000000); [|reflexivity].
  apply ui_reachable_after; [apply ui_reachable_after; [apply ui_reachable_initial|]|];
    exact I.
Defined.

(** ** The text chat *)

Lemma truthy_trim s : truthy (trim s) = false <-> whitespace_only s.
Proof.
  split.
  - intros H. apply trim_nil. now destruct (trim s).
  - intros H. now rewrite (trim_whitespace s H).
Qed.

(** X18.  [handleSendText] sends nothing exactly when the text box holds only
    white space: then it changes nothing at all (the text stays in the
    box); otherwise a request is pending and the box is emptied. *)
Theorem send_ignores_blank_input (now : DateSite -> N) (b : TextBox) :
  (whitespace_only (inputText b) -> handleSendText_begin now b = (b, None)) /\
  (~ whitespace_only (inputText b) ->
     exists b1 p, handleSendText_begin now b = (b1, Some p) /\
       inputText b1 = [] /\ textToSend p = trim (inputText b)).
Proof.
  split.
  - intros H%truthy_trim. unfold handleSendText_begin. now rewrite H.
  - intros H. unfold handleSendText_begin.
    destruct (truthy (trim (inputText b))) eqn:E;
      [|now apply truthy_trim in E].
    cbn [negb]. now eexists _, _.
Qed.

Lemma send_ignores_blank_input_witness :
  let b := {| component := open_session; inputText := str "   " |} in
  handleSendText_begin (fun _ => 0%N) b = (b, None).
Proof.
  intros b. destruct (send_ignores_blank_input (fun _ => 0%N) b) as [H _].
  apply H. reflexivity.
Defined.

Lemma fill_placeholder_fresh p text ms :
  Forall (fun m => Message.id m <> initialAssistantMessage_id p) ms ->
  fill_placeholder p text ms = ms.
Proof.
  unfold fill_placeholder. induction 1 as [|m ms Hm _ IH]; [reflexivity|].
  cbn [map]. now rewrite IH, decide_False.
Qed.

Lemma user_id_not_assistant_id x y : str "ut-" ++ x <> str "at-" ++ y.
Proof. change (117%N :: 116%N :: 45%N :: x <> 97%N :: 116%N :: 45%N :: y). intros [=]. Qed.

(** The exchange, once the placeholder has its text. *)
Lemma fill_exchange now p txt reply ms :
  initialAssistantMessage_id p = str "at-" ++ toString (now AssistantId) ->
  Forall (fun m => Message.id m <> initialAssistantMessage_id p) ms ->
  fill_placeholder p reply (ms ++ [userMessage now txt; assistantMessage now [] true]) =
    ms ++ [userMessage now txt; assistantMessage now reply false].
Proof.
  intros Hp Hfresh. unfold fill_placeholder. rewrite map_app.
  fold (fill_placeholder p reply ms). rewrite (fill_placeholder_fresh p reply ms Hfresh).
  f_equal. cbn [map userMessage assistantMessage Message.id]. rewrite Hp.
  rewrite decide_False by apply user_id_not_assistant_id.
  now rewrite decide_True by reflexivity.
Qed.

Lemma activeMessages_by_id s i t :
  activeThreadId s = Some i -> by_id i (threads s) = Some t ->
  activeMessages s = ChatThread.messages t.
Proof.
  intros Hi Ht. unfold activeMessages. now rewrite activeThread_eq, Hi, Ht.
Qed.

(** X19.  A text exchange in the selected thread: when the text box holds more
    than white space and a thread is selected (one that exists, none of
    whose messages carries the id of the new placeholder), sending shows the
    user's trimmed text followed by a typing placeholder, and when the
    request settles the placeholder alone is replaced: the messages on
    display are the former ones, the user's message and the assistant's
    with the response text (the apology for an empty response, the error
    text for a failure), no longer typing.  No thread is added. *)
Theorem send_in_selected_thread (now : DateSite -> N) (env : SendEnv) (b : TextBox) :
  truthy (trim (inputText b)) = true ->
  truthy_opt (activeThreadId (component b)) = true ->
  selection_exists (component b) ->
  Forall (fun m => Message.id m <> str "at-" ++ toString (now AssistantId))
         (activeMessages (component b)) ->
  exists b1 p,
    handleSendText_begin now b = (b1, Some p) /\
    let s2 := (handleSendText_settle env p (component b1)).2 in
    activeMessages (component b1) =
      activeMessages (component b) ++
        [userMessage now (trim (inputText b)); assistantMessage now [] true] /\
    activeMessages s2 =
      activeMessages (component b) ++
        [userMessage now (trim (inputText b)); assistantMessage now (reply_text env) false] /\
    map ChatThread.id (threads s2) = map ChatThread.id (threads (component b)).
Proof.
  intros Htxt Hact Hsel Hfresh. unfold handleSendText_begin. rewrite Htxt, Hact. cbn [negb].
  eexists _, _. split; [reflexivity|]. cbn zeta. cbn [component].
  rewrite handleSendText_settle_eq. cbn [snd].
  destruct (activeThreadId (component b)) as [i|] eqn:Hi; [|discriminate]. cbn [default].
  destruct (Hsel i Hi) as [t0 Ht0].
  assert (Hid : ChatThread.id t0 = i)
    by (apply find_some in Ht0 as [_ H]; now apply bool_decide_eq_true in H).
  assert (Hm0 : activeMessages (component b) = ChatThread.messages t0)
    by exact (activeMessages_by_id _ i t0 Hi Ht0).
  rewrite Hm0 in *.
  split; [|split].
  - erewrite (activeMessages_by_id _ i); [|exact Hi|].
    2:{ cbn [threads with_threads]. unfold append_exchange.
        rewrite (by_id_map i) by apply append_exchange_id. rewrite Ht0. reflexivity. }
    now rewrite decide_True by exact Hid.
  - erewrite (activeMessages_by_id _ i); [|exact Hi|].
    2:{ cbn [threads with_threads]. unfold append_exchange.
        rewrite (by_id_map i (settle_thread env _)) by apply settle_thread_id.
        rewrite (by_id_map i) by apply append_exchange_id. rewrite Ht0. reflexivity. }
    cbn beta. rewrite decide_True by exact Hid.
    unfold settle_thread. cbn [ChatThread.id currentThreadId].
    rewrite decide_True by exact Hid. cbn [ChatThread.messages].
    apply (fill_exchange now); [reflexivity|exact Hfresh].
  - cbn [threads with_threads]. unfold append_exchange.
    rewrite !map_map. apply List.map_ext. intros t.
    now rewrite settle_thread_id, append_exchange_id.
Qed.

Lemma send_in_selected_thread_witness :
  let now := fun _ : DateSite => 5%N in
  let env := {| send_GoogleGenAI := Ok tt; generateContent := Ok (Some (str "Hi"));
                send_Date := 6%N |} in
  let b := {| component := with_activeThreadId (Some (str "7"))
                (initial_state [ChatThread.mk (str "7") (str "A") [] 1%N]);
              inputText := str " Hello " |} in
  exists b1 p,
    handleSendText_begin now b = (b1, Some p) /\
    activeMessages (handleSendText_settle env p (component b1)).2 =
      [userMessage now (str "Hello"); assistantMessage now (str "Hi") false].
Proof.
  intros now env b.
  destruct (send_in_selected_thread now env b) as (b1 & p & Hb & _ & H & _).
  - reflexivity.
  - reflexivity.
  - intros i [= <-]. now eexists.
  - apply List.Forall_nil.
  - exists b1, p. split; [exact Hb|exact H].
Defined.

Lemma title_of_length txt : (length (title_of txt) <= 33)%nat.
Proof.
  unfold title_of. rewrite length_app, length_take.
  destruct (30 <? length txt)%nat;
    [change (length (str "...")) with 3%nat|change (length (@nil N)) with 0%nat]; lia.
Qed.

(** X20.  A text sent with no thread selected opens a conversation: the list
    grows by one thread, which is selected and holds the user's message and
    the assistant's; after a response its title is the text cut to 30 code
    units, with "..." when it was longer (at most 33 code units in all),
    after a failure it keeps the title "New Conversation". *)
Theorem send_opens_conversation (now : DateSite -> N) (env : SendEnv) (b : TextBox) :
  truthy (trim (inputText b)) = true ->
  truthy_opt (activeThreadId (component b)) = false ->
  exists b1 p,
    handleSendText_begin now b = (b1, Some p) /\
    let s2 := (handleSendText_settle env p (component b1)).2 in
    length (threads s2) = S (length (threads (component b))) /\
    activeThread s2 =
      Some (ChatThread.mk (toString (now ThreadId))
              (if succeeded env then title_of (trim (inputText b))
               else str "New Conversation")
              [userMessage now (trim (inputText b));
               assistantMessage now (reply_text env) false]
              (if succeeded env then send_Date env else now ThreadUpdatedAt)) /\
    (length (title_of (trim (inputText b))) <= 33)%nat /\
    ((length (trim (inputText b)) <= 30)%nat ->
       title_of (trim (inputText b)) = trim (inputText b)).
Proof.
  intros Htxt Hact. unfold handleSendText_begin. rewrite Htxt, Hact. cbn [negb].
  eexists _, _. split; [reflexivity|]. cbn zeta. cbn [component].
  rewrite handleSendText_settle_eq. cbn [snd].
  split; [|split; [|split]].
  - cbn [threads with_threads with_activeThreadId]. unfold append_exchange.
    now rewrite !length_map.
  - rewrite activeThread_eq.
    cbn [activeThreadId threads with_threads with_activeThreadId ChatThread.id].
    unfold append_exchange. cbn [map ChatThread.id].
    rewrite decide_True by reflexivity.
    rewrite by_id_cons, settle_thread_id. cbn [ChatThread.id].
    rewrite decide_True by reflexivity. f_equal.
    unfold settle_thread. cbn [ChatThread.id currentThreadId ChatThread.messages
      ChatThread.title ChatThread.updatedAt textToSend app length].
    rewrite decide_True by reflexivity. rewrite andb_true_r. f_equal.
    apply (fill_exchange now _ _ _ []); [reflexivity|apply List.Forall_nil].
  - apply title_of_length.
  - intros Hlen. unfold title_of. rewrite take_ge by lia.
    destruct (30 <? length (trim (inputText b)))%nat eqn:E;
      [apply Nat.ltb_lt in E; lia|apply app_nil_r].
Qed.

Lemma send_opens_conversation_witness :
  let now := fun _ : DateSite => 5%N in
  let env := {| send_GoogleGenAI := Ok tt; generateContent := Raise ConnectError;
                send_Date := 6%N |} in
  let b := {| component := initial_state []; inputText := str "Hello" |} in
  exists b1 p,
    handleSendText_begin now b = (b1, Some p) /\
    activeThread (handleSendText_settle env p (component b1)).2 =
      Some (ChatThread.mk (str "5") (str "New Conversation")
              [userMessage now (str "Hello");
               assistantMessage now (str "Error connecting to service.") false] 5%N).
Proof.
  intros now env b.
  destruct (send_opens_conversation now env b eq_refl eq_refl) as (b1 & p & Hb & _ & H & _).
  exists b1, p. split; [exact Hb|exact H].
Defined.

(** ** The accumulators between turns *)

(** X21.  Text is only ever added to the accumulators until a turn completes:
    after any message that does not carry turn-complete, whether its chunk
    decodes or not, each accumulator is its former content followed by
    what the message appended. *)
Theorem accumulators_only_grow (env : MessageEnv) (message : LiveServerMessage) (s : AppState) :
  default false (turnComplete <$> serverContent message) = false ->
  let s' := after (Msg env message) s in
  (exists more, currentInputTextRef s' = currentInputTextRef s ++ more) /\
  (exists more, currentOutputTextRef s' = currentOutputTextRef s ++ more).
Proof.
  intros Htc. cbn zeta. unfold after, handler.
  destruct (schedule_chunk_cases env (serverContent message ≫= inlineData) s)
    as [H|[(b & _ & H)|(e & _ & H)]].
  - rewrite (onmessage_eq _ _ _ _ H). cbn [snd]. unfold finish. rewrite Htc.
    destruct (default false (interrupted <$> serverContent message)); cbn;
      split; now eexists.
  - rewrite (onmessage_eq _ _ _ _ H). cbn [snd]. unfold finish. rewrite Htc.
    destruct (default false (interrupted <$> serverContent message)); cbn;
      split; now eexists.
  - rewrite (onmessage_raise _ _ _ _ _ H). cbn.
    split; exists []; now rewrite app_nil_r.
Qed.

Lemma accumulators_only_grow_witness :
  let s := after (Msg (at_clock 0 0) (input_fragment (str "Hello "))) open_session in
  exists more,
    currentInputTextRef (after (Msg (at_clock 0 0) (input_fragment (str "world"))) s) =
      currentInputTextRef s ++ more.
Proof.
  intros s.
  destruct (accumulators_only_grow (at_clock 0 0) (input_fragment (str "world")) s eq_refl)
    as [H _].
  exact H.
Defined.

(** ** Invariants of the session, on an open session *)

Lemma reachable_contexts_open_witness : contexts_open open_session.
Proof. apply (reachable_contexts_open open_session), reachable_open_session. Defined.

Lemma reachable_audioLevel_witness :
  0 <= audioLevel (after (Frame [1/2; -1/2]) open_session).
Proof.
  apply (reachable_audioLevel (after (Frame [1/2; -1/2]) open_session)).
  apply reachable_after; [apply reachable_open_session|exact I].
Defined.
